(** * GDAuth: the Globus token lifecycle and the transfer-client wrappers

    A shallow embedding of [gdauth/globus.py].  The Python module is glue
    around three outside parties: the local file system (through
    [numpy.load] / [numpy.save]), the console ([input]) and the Globus SDK
    (token exchange, transfer and identity calls).  The embedding threads a
    [World] through every function, raises Python exceptions as values of
    [exn], and records each interaction with the outside in a chronological
    [trace].  What the outside answers is given by an [Env] of oracles, each
    of which may look at the whole history of the run. *)

From Stdlib Require Import QArith Lqa.
From stdpp Require Import gmap strings list fin_maps.

Local Open Scope string_scope.

(** ** Python values used by the module *)

(** Exceptions the module can meet.  [isinstance] tests are the
    [is_...] predicates below; the classes listed here are pairwise
    unrelated, which is all the handlers of the module rely on. *)
Inductive exn : Type :=
| FileNotFoundError
| OSError (what : string)          (* any other OS-level failure *)
| UnpicklingError                  (* a file that is not a pickled object *)
| KeyError (key : string)
| IndexError
| EOFError
| KeyboardInterrupt
| AuthAPIError (code : string)
| TransferAPIError (code message : string)
| NetworkError.

Global Instance exn_eq_dec : EqDecision exn.
Proof. solve_decision. Defined.

Definition is_FileNotFoundError (e : exn) : bool :=
  match e with FileNotFoundError => true | _ => false end.

Definition is_TransferAPIError (e : exn) : bool :=
  match e with TransferAPIError _ _ => true | _ => false end.

(** One entry of [OAuthTokenResponse.by_resource_server]. *)
Record TokenData : Type := {
  refresh_token : option string;
  access_token : string;
  expires_at_seconds : Z
}.

(** The Credential Record: the SDK's token response, keyed by resource
    server. *)
Record TokenResponse : Type := {
  by_resource_server : gmap string TokenData
}.

Global Instance TokenData_eq_dec : EqDecision TokenData.
Proof. solve_decision. Defined.

Global Instance TokenResponse_eq_dec : EqDecision TokenResponse.
Proof. solve_decision. Defined.

(** SDK client objects.  Their constructors do no I/O. *)
Record NativeAppAuthClient : Type := {
  client_id : string;
  flow_refresh_tokens : bool
}.

Record RefreshTokenAuthorizer : Type := {
  auth_refresh_token : option string;
  auth_client : NativeAppAuthClient;
  auth_access_token : string;
  auth_expires_at : Z
}.

Record AuthClient : Type := { ac_authorizer : RefreshTokenAuthorizer }.
Record TransferClient : Type := { tc_authorizer : RefreshTokenAuthorizer }.

(** An endpoint document of an endpoint search. *)
Record Endpoint : Type := {
  ep_id : string;
  ep_display_name : string
}.

(** The access rule [share] submits. *)
Record RuleData : Type := {
  DATA_TYPE : string;
  principal_type : string;
  principal : string;
  rule_path : string;
  permissions : string;
  notify_email : string;
  notify_message : string
}.

(** What a file holds, as far as [np.load(...).item()] can tell.  Only an
    absent file makes the load raise [FileNotFoundError]. *)
Inductive FileContent : Type :=
| Npy (obj : TokenResponse)        (* a pickled 0-d object array *)
| Garbage                          (* not a pickle: [UnpicklingError] *)
| Unreadable (what : string).      (* cannot be opened: [OSError what] *)

Inductive Level : Type := INFO | WARNING | ERROR.

(** ** Interactions with the outside, and the world *)

Inductive Call : Type :=
| CLoad (path : string)
| CSave (path : string) (obj : TokenResponse)
| CTime
| CInput (prompt : string)
| CLog (lvl : Level) (msg : string) (args : list Q)
| CExchange (app_uuid auth_code : string)
| CRefreshGrant (app_uuid refresh_token : string)
    (* [oauth2_refresh_token]: part of the SDK, never called by the module *)
| CMkdir (tc : TransferClient) (ep_uuid path : string)
| CLs (tc : TransferClient) (ep_uuid path : string)
| CGetIdentities (ac : AuthClient) (usernames : string)
| CAddAcl (tc : TransferClient) (ep_uuid : string) (rule : RuleData)
| CEndpointSearch (tc : TransferClient) (filter_scope : string).

(** A call together with the exception it raised, if any. *)
Inductive Event : Type :=
| Ev (c : Call) (raised : option exn).

Definition ev_call (ev : Event) : Call := let 'Ev c _ := ev in c.

Record World : Type := {
  fs : gmap string FileContent;     (* the local file system, by path *)
  stdin : list string;              (* lines still to be typed *)
  ticks : nat;                      (* readings of the clock so far *)
  trace : list Event                (* history, oldest first *)
}.

(** The outside.  [time.time()] returns a float; only the sign of
    [expires_at_s - time.time()] is ever inspected, and that sign is the
    sign of the exact difference, so readings are taken in [Q]. *)
Record Env : Type := {
  home : string;
  clock : nat -> Q;
  authorize_url : string -> string;
  exchange_code_for_tokens :
    list Event -> string -> string -> exn + TokenResponse;
  save_error : list Event -> string -> option exn;
  save_truncates : list Event -> string -> bool;
    (* a failing save: had the file already been opened for writing? *)
  mkdir_error : list Event -> TransferClient -> string -> string -> option exn;
  ls_error : list Event -> TransferClient -> string -> string -> option exn;
  identities :
    list Event -> AuthClient -> string -> exn + list string;
  acl_error :
    list Event -> TransferClient -> string -> RuleData -> option exn;
  search :
    list Event -> TransferClient -> string -> exn + list Endpoint
}.

(** ** The effect monad: state passing with exceptions *)

Definition M (A : Type) : Type := World -> (exn + A) * World.

Definition ret {A} (a : A) : M A := fun w => (inr a, w).

Definition raise {A} (e : exn) : M A := fun w => (inl e, w).

Definition bind {A B} (m : M A) (k : A -> M B) : M B :=
  fun w =>
    match m w with
    | (inl e, w') => (inl e, w')
    | (inr a, w') => k a w'
    end.

(** [try: body  except ...:]: [handler e] is [None] when no clause of the
    statement matches [e]. An exception raised inside a handler is not
    offered to the sibling clauses. *)
Definition try_except {A} (body : M A) (handler : exn -> option (M A)) : M A :=
  fun w =>
    match body w with
    | (inl e, w') =>
        match handler e with
        | Some h => h w'
        | None => (inl e, w')
        end
    | (inr a, w') => (inr a, w')
    end.

Declare Scope py_scope.
Delimit Scope py_scope with py.
Notation "x <- m ;; k" := (bind m (fun x => k))
  (at level 100, m at next level, right associativity) : py_scope.
Notation "m ;;; k" := (bind m (fun _ => k))
  (at level 100, right associativity) : py_scope.
Local Open Scope py_scope.

Definition emit (c : Call) (r : option exn) (w : World) : World :=
  {| fs := fs w; stdin := stdin w; ticks := ticks w;
     trace := trace w ++ [Ev c r] |}.

(** The events a run added to the history. *)
Definition emitted (w w' : World) : list Event :=
  drop (length (trace w)) (trace w').

(** ** String helpers: [str.strip] and [os.path.join] (ASCII, POSIX) *)

Definition is_space (a : Ascii.ascii) : bool :=
  let n := Ascii.nat_of_ascii a in
  (n =? 32)%nat || ((9 <=? n)%nat && (n <=? 13)%nat)
  || ((28 <=? n)%nat && (n <=? 31)%nat).

Fixpoint lstrip (s : string) : string :=
  match s with
  | EmptyString => EmptyString
  | String a s' => if is_space a then lstrip s' else s
  end.

Fixpoint rstrip (s : string) : string :=
  match s with
  | EmptyString => EmptyString
  | String a s' =>
      match rstrip s' with
      | EmptyString => if is_space a then EmptyString else String a EmptyString
      | r => String a r
      end
  end.

Definition strip (s : string) : string := rstrip (lstrip s).

Fixpoint ends_with_slash (s : string) : bool :=
  match s with
  | EmptyString => false
  | String a EmptyString => Ascii.eqb a (Ascii.ascii_of_nat 47)
  | String _ s' => ends_with_slash s'
  end.

(** [os.path.join(a, b)] for a relative [b]. *)
Definition path_join (a b : string) : string :=
  match a with
  | EmptyString => b
  | _ => if ends_with_slash a then a +:+ b else a +:+ "/" +:+ b
  end.

Definition Qltb (x y : Q) : bool :=
  match (x ?= y)%Q with Lt => true | _ => false end.

(** ** Python dictionaries with string keys, in insertion order *)

Fixpoint dict_set (k v : string) (d : list (string * string))
  : list (string * string) :=
  match d with
  | [] => [(k, v)]
  | (k', v') :: d' =>
      if String.eqb k k' then (k, v) :: d' else (k', v') :: dict_set k v d'
  end.

Fixpoint dict_get (k : string) (d : list (string * string)) : option string :=
  match d with
  | [] => None
  | (k', v') :: d' => if String.eqb k k' then Some v' else dict_get k d'
  end.

Definition dict_mem (k : string) (d : list (string * string)) : bool :=
  match dict_get k d with Some _ => true | None => false end.

(** ** Primitive operations *)

Section Globus.
Variable E : Env.

(** [log.info], [log.warning], [log.error] of [gdauth.log]: they write a
    line and never raise. *)
Definition log (lvl : Level) (msg : string) (args : list Q) : M unit :=
  fun w => (inr tt, emit (CLog lvl msg args) None w).

(** [np.load(path, allow_pickle='TRUE').item()] *)
Definition np_load (path : string) : M TokenResponse :=
  fun w =>
    match fs w !! path with
    | None => (inl FileNotFoundError, emit (CLoad path) (Some FileNotFoundError) w)
    | Some Garbage =>
        (inl UnpicklingError, emit (CLoad path) (Some UnpicklingError) w)
    | Some (Unreadable what) =>
        (inl (OSError what), emit (CLoad path) (Some (OSError what)) w)
    | Some (Npy obj) => (inr obj, emit (CLoad path) None w)
    end.

(** [np.save(path, obj)]: numpy opens the file for writing, which
    empties it, and then pickles the object into it.  A save that
    succeeds leaves the whole new record.  A save that fails does so
    either at the open, leaving the file as it was, or after it,
    leaving a truncated file that no longer loads. *)
Definition np_save (path : string) (obj : TokenResponse) : M unit :=
  fun w =>
    match save_error E (trace w) path with
    | Some e =>
        (inl e,
         {| fs := if save_truncates E (trace w) path
                  then <[path := Garbage]> (fs w) else fs w;
            stdin := stdin w; ticks := ticks w;
            trace := trace w ++ [Ev (CSave path obj) (Some e)] |})
    | None =>
        (inr tt,
         {| fs := <[path := Npy obj]> (fs w); stdin := stdin w;
            ticks := ticks w;
            trace := trace w ++ [Ev (CSave path obj) None] |})
    end.

(** [time.time()] *)
Definition time_time : M Q :=
  fun w =>
    (inr (clock E (ticks w)),
     {| fs := fs w; stdin := stdin w; ticks := S (ticks w);
        trace := trace w ++ [Ev CTime None] |}).

(** [input(prompt)]: the next line of the console, [EOFError] when there
    is none. *)
Definition input (prompt : string) : M string :=
  fun w =>
    match stdin w with
    | [] => (inl EOFError, emit (CInput prompt) (Some EOFError) w)
    | line :: rest =>
        (inr line,
         {| fs := fs w; stdin := rest; ticks := ticks w;
            trace := trace w ++ [Ev (CInput prompt) None] |})
    end.

(** [globus_sdk.NativeAppAuthClient(app_uuid)] followed by
    [client.oauth2_start_flow(refresh_tokens=True)] *)
Definition new_native_client (app_uuid : string) : NativeAppAuthClient :=
  {| client_id := app_uuid; flow_refresh_tokens := true |}.

Definition oauth2_get_authorize_url (client : NativeAppAuthClient) : string :=
  authorize_url E (client_id client).

Definition oauth2_exchange_code_for_tokens
    (client : NativeAppAuthClient) (auth_code : string) : M TokenResponse :=
  fun w =>
    let c := CExchange (client_id client) auth_code in
    match exchange_code_for_tokens E (trace w) (client_id client) auth_code with
    | inl e => (inl e, emit c (Some e) w)
    | inr r => (inr r, emit c None w)
    end.

(** [d[key]] on [by_resource_server] *)
Definition getitem (d : gmap string TokenData) (key : string) : M TokenData :=
  match d !! key with
  | Some v => ret v
  | None => raise (KeyError key)
  end.

Definition operation_mkdir (tc : TransferClient) (ep_uuid path : string)
  : M unit :=
  fun w =>
    let r := mkdir_error E (trace w) tc ep_uuid path in
    (match r with Some e => inl e | None => inr tt end,
     emit (CMkdir tc ep_uuid path) r w).

Definition operation_ls (tc : TransferClient) (ep_uuid path : string)
  : M unit :=
  fun w =>
    let r := ls_error E (trace w) tc ep_uuid path in
    (match r with Some e => inl e | None => inr tt end,
     emit (CLs tc ep_uuid path) r w).

Definition get_identities (ac : AuthClient) (usernames : string)
  : M (list string) :=
  fun w =>
    let c := CGetIdentities ac usernames in
    match identities E (trace w) ac usernames with
    | inl e => (inl e, emit c (Some e) w)
    | inr ids => (inr ids, emit c None w)
    end.

Definition add_endpoint_acl_rule
    (tc : TransferClient) (ep_uuid : string) (rule : RuleData) : M unit :=
  fun w =>
    let r := acl_error E (trace w) tc ep_uuid rule in
    (match r with Some e => inl e | None => inr tt end,
     emit (CAddAcl tc ep_uuid rule) r w).

Definition endpoint_search (tc : TransferClient) (filter_scope : string)
  : M (list Endpoint) :=
  fun w =>
    let c := CEndpointSearch tc filter_scope in
    match search E (trace w) tc filter_scope with
    | inl e => (inl e, emit c (Some e) w)
    | inr eps => (inr eps, emit c None w)
    end.

(** ** The module's functions *)

Definition globus_token_file : string := path_join (home E) "token.npy".

Definition transfer_server : string := "transfer.api.globus.org".

(** Lines 29-39 and 52-62: the interactive authorization-code exchange,
    written out twice in the source with the same text. *)
Definition create_new_token (app_uuid : string) : M TokenResponse :=
  let client := new_native_client app_uuid in
  log WARNING ("Please go to this URL and login: "
               +:+ oauth2_get_authorize_url client) [] ;;;
  line <- input "Please enter the code you get after login here: " ;;
  let auth_code := strip line in
  token_response <- oauth2_exchange_code_for_tokens client auth_code ;;
  np_save globus_token_file token_response ;;;
  ret token_response.

Definition refresh_globus_token (app_uuid : string) : M TokenResponse :=
  token_response <-
    try_except (np_load globus_token_file)
      (fun e =>
         if is_FileNotFoundError e then
           Some (log ERROR "Globus token is missing. Creating one" [] ;;;
                 create_new_token app_uuid)
         else None) ;;
  globus_transfer_data <-
    getitem (by_resource_server token_response) transfer_server ;;
  let expires_at_s := expires_at_seconds globus_transfer_data in
  now <- time_time ;;
  let globus_token_life := (inject_Z expires_at_s - now)%Q in
  if Qltb globus_token_life 0 then
    create_new_token app_uuid
  else
    ret token_response.

Definition create_clients (app_uuid : string)
  : M (AuthClient * TransferClient) :=
  token_response <- refresh_globus_token app_uuid ;;
  globus_transfer_data <-
    getitem (by_resource_server token_response) transfer_server ;;
  let transfer_rt := refresh_token globus_transfer_data in
  let transfer_at := access_token globus_transfer_data in
  let expires_at_s := expires_at_seconds globus_transfer_data in
  now <- time_time ;;
  let globus_token_life := (inject_Z expires_at_s - now)%Q in
  log WARNING "Globus access token will expire in %2.2f hours"
      [(globus_token_life / 3600)%Q] ;;;
  let client := new_native_client app_uuid in
  let authorizer :=
    {| auth_refresh_token := transfer_rt; auth_client := client;
       auth_access_token := transfer_at; auth_expires_at := expires_at_s |} in
  let ac := {| ac_authorizer := authorizer |} in
  let tc := {| tc_authorizer := authorizer |} in
  ret (ac, tc).

Definition create_folder_link (directory app_uuid ep_uuid : string)
  : M string :=
  clients <- create_clients app_uuid ;;
  let url := "https://app.globus.org/file-manager?&origin_id=" +:+ ep_uuid
             +:+ "&origin_path=/" +:+ directory in
  ret url.

(** [e.code] and [e.message] of an API error *)
Definition exn_code (e : exn) : string :=
  match e with
  | TransferAPIError c _ => c
  | AuthAPIError c => c
  | _ => ""
  end.

Definition exn_message (e : exn) : string :=
  match e with TransferAPIError _ m => m | _ => "" end.

Definition create_dir (directory app_uuid ep_uuid : string) : M bool :=
  let dir_path := "/" +:+ directory +:+ "/" in
  clients <- create_clients app_uuid ;;
  let '(ac, tc) := clients in
  try_except
    (operation_mkdir tc ep_uuid dir_path ;;;
     log INFO ("*** Created folder: " +:+ dir_path) [] ;;;
     url <- create_folder_link directory app_uuid ep_uuid ;;
     log INFO url [] ;;;
     ret true)
    (fun e =>
       if is_TransferAPIError e then
         Some (log WARNING ("Transfer API Error: " +:+ exn_code e +:+ " - "
                            +:+ exn_message e) [] ;;;
               url <- create_folder_link directory app_uuid ep_uuid ;;
               log INFO url [] ;;;
               ret true)
       else
         Some (log ERROR "*** Unknow error" [] ;;;
               ret false)).

Definition check_folder_exists (directory app_uuid ep_uuid : string)
  : M bool :=
  clients <- create_clients app_uuid ;;
  let '(ac, tc) := clients in
  try_except
    (operation_ls tc ep_uuid directory ;;;
     ret true)
    (fun e =>
       if is_TransferAPIError e then
         Some (if String.eqb (exn_code e) "ClientError.NotFound"
               then ret false
               else raise e)
       else None).

Definition get_user_id (app_uuid email : string) : M string :=
  clients <- create_clients app_uuid ;;
  let '(ac, tc) := clients in
  r <- get_identities ac email ;;
  match r with
  | [] => raise IndexError
  | user_id :: _ => ret user_id
  end.

(** The Python function falls off its end in the [else] branch: the
    result is [None] there, [Some b] where it returns the boolean [b]. *)
Definition share (directory email app_uuid ep_uuid : string)
  : M (option bool) :=
  found <- check_folder_exists directory app_uuid ep_uuid ;;
  if found : bool then
    clients <- create_clients app_uuid ;;
    let '(ac, tc) := clients in
    user_id <- get_user_id app_uuid email ;;
    let dir_path := "/" +:+ directory +:+ "/" in
    let rule_data :=
      {| DATA_TYPE := "access";
         principal_type := "identity";
         principal := user_id;
         rule_path := dir_path;
         permissions := "r";
         notify_email := email;
         notify_message := "add here a custom meassage" |} in
    try_except
      (add_endpoint_acl_rule tc ep_uuid rule_data ;;;
       log INFO ("*** Path " +:+ dir_path +:+ " has been shared with "
                 +:+ email) [] ;;;
       url <- create_folder_link directory app_uuid ep_uuid ;;
       log INFO url [] ;;;
       ret (Some true))
      (fun e =>
         if is_TransferAPIError e then
           Some (log ERROR ("Transfer API Error: " +:+ exn_code e +:+ " - "
                            +:+ exn_message e) [] ;;;
                 ret (Some false))
         else
           Some (log WARNING ("*** Path " +:+ dir_path
                              +:+ " is already shared with " +:+ email) [] ;;;
                 ret (Some false)))
  else
    log ERROR (directory +:+ " does not exist") [] ;;;
    log ERROR "Run: python globus.py create --directory <directory name>" [] ;;;
    ret None.

(** [for x in l: body], threading the loop's local state *)
Fixpoint for_in {A S : Type} (l : list A) (body : A -> S -> M S) (s : S)
  : M S :=
  match l with
  | [] => ret s
  | x :: l' => s' <- body x s ;; for_in l' body s'
  end.

Definition log_endpoint (ep : Endpoint) : M unit :=
  log INFO ("*** *** [" +:+ ep_id ep +:+ "] " +:+ ep_display_name ep) [].

Definition find_endpoints (app_uuid : string) (show : bool)
  : M (list (string * string)) :=
  clients <- create_clients app_uuid ;;
  let '(ac, tc) := clients in
  let endpoints := [] in
  if show then
    log INFO "Show all endpoints shared and owned by my globus user credentials" [] ;;;
    log INFO "*** Endpoints shared with me:" [] ;;;
    eps <- endpoint_search tc "shared-with-me" ;;
    for_in eps (fun ep _ => log_endpoint ep) tt ;;;
    log INFO "*** Endpoints owned with me:" [] ;;;
    eps <- endpoint_search tc "my-endpoints" ;;
    for_in eps (fun ep _ => log_endpoint ep) tt ;;;
    log INFO "*** Endpoints shared by me:" [] ;;;
    eps <- endpoint_search tc "shared-by-me" ;;
    for_in eps
      (fun ep endpoints =>
         log_endpoint ep ;;;
         ret (dict_set (ep_display_name ep) (ep_id ep) endpoints))
      endpoints
  else
    eps <- endpoint_search tc "shared-by-me" ;;
    for_in eps
      (fun ep endpoints =>
         ret (dict_set (ep_display_name ep) (ep_id ep) endpoints))
      endpoints.

Definition find_endpoint_uuid (app_uuid ep_name : string)
  : M (option string) :=
  let ep_uuid := None in
  end_points <- find_endpoints app_uuid false ;;
  if dict_mem ep_name end_points then
    let ep_uuid := dict_get ep_name end_points in
    ret ep_uuid
  else
    log ERROR (ep_name +:+ " endpoint does not exists") [] ;;;
    log ERROR "Select one of this endpoints:" [] ;;;
    for_in end_points
      (fun kv _ => log ERROR ("*** *** " +:+ kv.1) []) tt ;;;
    ret ep_uuid.

End Globus.

(** ** Listings and links: [find_files] and [create_links] *)

(** An entry of [response['DATA']] of a directory listing. *)
Record DirEntry : Type := {
  item_type : string;
  item_name : string
}.

(** [s[start:-drop]] for [start >= 0] and [drop > 0]: the characters from
    index [start] up to, not including, the last [drop] ones; empty when
    the string is too short. *)
Definition slice_to_end (start drop : nat) (s : string) : string :=
  String.substring start (String.length s - drop - start) s.

Section Listing.
Variable E : Env.

(** What a successful listing returns.  Whether the listing succeeds is
    [ls_error E], as for [operation_ls]. *)
Variable ls_data :
  list Event -> TransferClient -> string -> string -> list DirEntry.

(** [tc.get_endpoint(ep_uuid)['tlsftp_server']]: a remote call of the
    SDK, taken as it comes. *)
Variable get_tlsftp_server : TransferClient -> string -> M string.

(** [tc.operation_ls(ep_uuid, path=path)], with its answer *)
Definition operation_ls_data (tc : TransferClient) (ep_uuid path : string)
  : M (list DirEntry) :=
  fun w =>
    let r := ls_error E (trace w) tc ep_uuid path in
    (match r with
     | Some e => inl e
     | None => inr (ls_data (trace w) tc ep_uuid path)
     end,
     emit (CLs tc ep_uuid path) r w).

Definition find_files (directory app_uuid ep_uuid : string)
  : M (list string * list string) :=
  clients <- create_clients E app_uuid ;;
  let '(ac, tc) := clients in
  response <- operation_ls_data tc ep_uuid directory ;;
  let files := [] in
  let folders := [] in
  for_in response
    (fun item acc =>
       let '(files, folders) := acc in
       log INFO ("directory " +:+ directory +:+ " contains "
                 +:+ item_type item +:+ ": " +:+ item_name item) [] ;;;
       let files :=
         if String.eqb (item_type item) "file"
         then (files ++ [item_name item])%list else files in
       let folders :=
         if String.eqb (item_type item) "dir"
         then (folders ++ [item_name item])%list else folders in
       ret (files, folders))
    (files, folders).

Definition create_links (directory app_uuid ep_uuid : string)
  : M (list string * list string) :=
  let file_links := [] in
  let folder_links := [] in
  clients <- create_clients E app_uuid ;;
  let '(ac, tc) := clients in
  found <- find_files directory app_uuid ep_uuid ;;
  let '(files, folders) := found in
  file_links <-
    for_in files
      (fun file_name file_links =>
         tlsftp_server <- get_tlsftp_server tc ep_uuid ;;
         ret (file_links
              ++ ["https://" +:+ slice_to_end 9 4 tlsftp_server +:+ "/"
                  +:+ directory +:+ "/" +:+ file_name])%list)
      file_links ;;
  folder_links <-
    for_in folders
      (fun folder folder_links =>
         ret (folder_links
              ++ ["https://app.globus.org/file-manager?&origin_id="
                  +:+ ep_uuid +:+ "&origin_path=/" +:+ directory +:+ "/"
                  +:+ folder])%list)
      folder_links ;;
  ret (file_links, folder_links).

End Listing.

(** * Vocabulary of the properties *)

Local Open Scope Q_scope.
Local Open Scope list_scope.

(** The remaining life the source computes, against a clock reading. *)
Definition life (d : TokenData) (now : Q) : Q :=
  inject_Z (expires_at_seconds d) - now.

(** ** Runs of the interactive exchange

    [create_new_token] has four ways to end: the console is closed, the
    exchange is refused, the save fails, or the new record is stored. *)

Section NewTokenRuns.
Variable E : Env.
Variable app_uuid : string.

Definition url_event : Event :=
  Ev (CLog WARNING
        ("Please go to this URL and login: " +:+ authorize_url E app_uuid) [])
     None.

Definition code_prompt : string :=
  "Please enter the code you get after login here: ".

Inductive new_token_run (w : World)
  : (exn + TokenResponse) * World -> Prop :=
| NT_eof :
    stdin w = [] ->
    new_token_run w
      (inl EOFError,
       {| fs := fs w; stdin := []; ticks := ticks w;
          trace := trace w ++ [url_event;
                               Ev (CInput code_prompt) (Some EOFError)] |})
| NT_refused line rest e :
    stdin w = line :: rest ->
    exchange_code_for_tokens E
      (trace w ++ [url_event; Ev (CInput code_prompt) None])
      app_uuid (strip line) = inl e ->
    new_token_run w
      (inl e,
       {| fs := fs w; stdin := rest; ticks := ticks w;
          trace := trace w ++ [url_event; Ev (CInput code_prompt) None;
                               Ev (CExchange app_uuid (strip line)) (Some e)] |})
| NT_unsaved line rest x e :
    stdin w = line :: rest ->
    exchange_code_for_tokens E
      (trace w ++ [url_event; Ev (CInput code_prompt) None])
      app_uuid (strip line) = inr x ->
    save_error E
      (trace w ++ [url_event; Ev (CInput code_prompt) None;
                   Ev (CExchange app_uuid (strip line)) None])
      (globus_token_file E) = Some e ->
    new_token_run w
      (inl e,
       {| fs := if save_truncates E
                     (trace w ++ [url_event; Ev (CInput code_prompt) None;
                                  Ev (CExchange app_uuid (strip line)) None])
                     (globus_token_file E)
                then <[globus_token_file E := Garbage]> (fs w) else fs w;
          stdin := rest; ticks := ticks w;
          trace := trace w ++ [url_event; Ev (CInput code_prompt) None;
                               Ev (CExchange app_uuid (strip line)) None;
                               Ev (CSave (globus_token_file E) x) (Some e)] |})
| NT_stored line rest x :
    stdin w = line :: rest ->
    exchange_code_for_tokens E
      (trace w ++ [url_event; Ev (CInput code_prompt) None])
      app_uuid (strip line) = inr x ->
    save_error E
      (trace w ++ [url_event; Ev (CInput code_prompt) None;
                   Ev (CExchange app_uuid (strip line)) None])
      (globus_token_file E) = None ->
    new_token_run w
      (inr x,
       {| fs := <[globus_token_file E := Npy x]> (fs w); stdin := rest;
          ticks := ticks w;
          trace := trace w ++ [url_event; Ev (CInput code_prompt) None;
                               Ev (CExchange app_uuid (strip line)) None;
                               Ev (CSave (globus_token_file E) x) None] |}).

(** The world after one reading of the clock. *)
Definition after_time (w : World) : World :=
  {| fs := fs w; stdin := stdin w; ticks := S (ticks w);
     trace := trace w ++ [Ev CTime None] |}.

(** Lines 23-39: the record is loaded, or created when the file is
    missing; any other failure of the load ends the call. *)
Inductive load_phase (w : World) : (exn + TokenResponse) * World -> Prop :=
| LP_loaded r :
    fs w !! globus_token_file E = Some (Npy r) ->
    load_phase w (inr r, emit (CLoad (globus_token_file E)) None w)
| LP_garbage :
    fs w !! globus_token_file E = Some Garbage ->
    load_phase w
      (inl UnpicklingError,
       emit (CLoad (globus_token_file E)) (Some UnpicklingError) w)
| LP_unreadable what :
    fs w !! globus_token_file E = Some (Unreadable what) ->
    load_phase w
      (inl (OSError what),
       emit (CLoad (globus_token_file E)) (Some (OSError what)) w)
| LP_missing res :
    fs w !! globus_token_file E = None ->
    new_token_run
      (emit (CLog ERROR "Globus token is missing. Creating one" []) None
         (emit (CLoad (globus_token_file E)) (Some FileNotFoundError) w))
      res ->
    load_phase w res.

(** Lines 41-64: the remaining life of the record in hand is compared
    with zero, and a record with negative life is replaced. *)
Inductive check_phase (token_response : TokenResponse) (w : World)
  : (exn + TokenResponse) * World -> Prop :=
| CP_no_transfer :
    by_resource_server token_response !! transfer_server = None ->
    check_phase token_response w (inl (KeyError transfer_server), w)
| CP_kept d :
    by_resource_server token_response !! transfer_server = Some d ->
    0 <= life d (clock E (ticks w)) ->
    check_phase token_response w (inr token_response, after_time w)
| CP_replaced d res :
    by_resource_server token_response !! transfer_server = Some d ->
    life d (clock E (ticks w)) < 0 ->
    new_token_run (after_time w) res ->
    check_phase token_response w res.

(** A whole call: the load phase, then, if it produced a record, the
    check phase. *)
Inductive refresh_run (w : World) : (exn + TokenResponse) * World -> Prop :=
| RR_load_failed e w1 :
    load_phase w (inl e, w1) ->
    refresh_run w (inl e, w1)
| RR_checked token_response w1 res :
    load_phase w (inr token_response, w1) ->
    check_phase token_response w1 res ->
    refresh_run w res.

End NewTokenRuns.

(** What the successful saves of a history do to a file system, one after
    the other: each puts a whole record at its path. *)
Fixpoint replay_saves (evs : list Event) (files : gmap string FileContent)
  : gmap string FileContent :=
  match evs with
  | [] => files
  | Ev (CSave path obj) None :: evs' =>
      replay_saves evs' (<[path := Npy obj]> files)
  | _ :: evs' => replay_saves evs' files
  end.

(** The stored record is expired at the clock reading [now]. *)
Definition stored_expired (E : Env) (w : World) : Prop :=
  exists r d,
    fs w !! globus_token_file E = Some (Npy r) /\
    by_resource_server r !! transfer_server = Some d /\
    inject_Z (expires_at_seconds d) < clock E (ticks w).

(** ** Which calls a computation makes *)

(** [calls_only ok m]: whatever the world, [m] only adds events to the
    history, and each of them is a call that [ok] accepts. *)
Definition calls_only {A} (ok : Call -> bool) (m : M A) : Prop :=
  forall w, exists evs,
    trace (m w).2 = trace w ++ evs /\
    Forall (fun ev => ok (ev_call ev) = true) evs.

(** The calls of the token lifecycle: file, clock, console, log and the
    authorization-code exchange. *)
Definition lifecycle_call (c : Call) : bool :=
  match c with
  | CLoad _ | CSave _ _ | CTime | CInput _ | CLog _ _ _ | CExchange _ _ => true
  | _ => false
  end.

Definition is_ls_call (c : Call) : bool :=
  match c with CLs _ _ _ => true | _ => false end.

(** An endpoint search, if it is one, is for scope "shared-by-me". *)
Definition search_shared_by_me (c : Call) : bool :=
  match c with
  | CEndpointSearch _ scope => String.eqb scope "shared-by-me"
  | _ => true
  end.

(** The dictionary [find_endpoints] builds from a search result. *)
Definition endpoints_of (eps : list Endpoint) : list (string * string) :=
  foldl (fun d ep => dict_set (ep_display_name ep) (ep_id ep) d) [] eps.

(** ** Sample environments and worlds *)

Module Samples.

Definition transfer_data (expires : Z) : TokenData :=
  {| refresh_token := Some "RT"; access_token := "AT";
     expires_at_seconds := expires |}.

Definition record (expires : Z) : TokenResponse :=
  {| by_resource_server := {[ transfer_server := transfer_data expires ]} |}.

(** An environment in which every remote call succeeds: the clock is
    [now], the auth service answers every code with a record expiring at
    [fresh]. *)
Definition env (now : nat -> Q) (fresh : Z) : Env :=
  {| home := "/home/user";
     clock := now;
     authorize_url := fun app => "https://auth.globus.org/authorize?client_id=" +:+ app;
     exchange_code_for_tokens := fun _ _ _ => inr (record fresh);
     save_error := fun _ _ => None;
     save_truncates := fun _ _ => false;
     mkdir_error := fun _ _ _ _ => None;
     ls_error := fun _ _ _ _ => None;
     identities := fun _ _ _ => inr ["user-id"];
     acl_error := fun _ _ _ _ => None;
     search := fun _ _ _ => inr [] |}.

Definition token_path : string := "/home/user/token.npy".

(** A world whose credential file holds [content], with [lines] waiting
    on the console. *)
Definition world_with (content : FileContent) (lines : list string) : World :=
  {| fs := {[ token_path := content ]};
     stdin := lines; ticks := 0; trace := [] |}.

(** A world whose credential file holds a record expiring at [expires]. *)
Definition world (expires : Z) (lines : list string) : World :=
  world_with (Npy (record expires)) lines.

(** A world without credential file. *)
Definition fresh_world (lines : list string) : World :=
  {| fs := ∅; stdin := lines; ticks := 0; trace := [] |}.

(** The same environment with another answer of the auth service. *)
Definition with_exchange (E : Env) (answer : exn + TokenResponse) : Env :=
  {| home := home E; clock := clock E; authorize_url := authorize_url E;
     exchange_code_for_tokens := fun _ _ _ => answer;
     save_error := save_error E; save_truncates := save_truncates E;
     mkdir_error := mkdir_error E;
     ls_error := ls_error E;
     identities := identities E; acl_error := acl_error E;
     search := search E |}.

(** The same environment with another answer to directory listings. *)
Definition with_ls (E : Env) (err : option exn) : Env :=
  {| home := home E; clock := clock E; authorize_url := authorize_url E;
     exchange_code_for_tokens := exchange_code_for_tokens E;
     save_error := save_error E; save_truncates := save_truncates E;
     mkdir_error := mkdir_error E;
     ls_error := fun _ _ _ _ => err;
     identities := identities E; acl_error := acl_error E;
     search := search E |}.

(** ... to [operation_mkdir]. *)
Definition with_mkdir (E : Env) (err : option exn) : Env :=
  {| home := home E; clock := clock E; authorize_url := authorize_url E;
     exchange_code_for_tokens := exchange_code_for_tokens E;
     save_error := save_error E; save_truncates := save_truncates E;
     mkdir_error := fun _ _ _ _ => err;
     ls_error := ls_error E;
     identities := identities E; acl_error := acl_error E;
     search := search E |}.

(** ... to endpoint searches. *)
Definition with_search (E : Env) (eps : list Endpoint) : Env :=
  {| home := home E; clock := clock E; authorize_url := authorize_url E;
     exchange_code_for_tokens := exchange_code_for_tokens E;
     save_error := save_error E; save_truncates := save_truncates E;
     mkdir_error := mkdir_error E;
     ls_error := ls_error E;
     identities := identities E; acl_error := acl_error E;
     search := fun _ _ _ => inr eps |}.

(** A clock that jumps from [early] to [late] after [n] readings. *)
Definition jumping_clock (n : nat) (early late : Q) : nat -> Q :=
  fun k => if (k <? n)%nat then early else late.

(** The clients [create_clients] builds from the sample record. *)
Definition authorizer (app : string) (expires : Z) : RefreshTokenAuthorizer :=
  {| auth_refresh_token := Some "RT";
     auth_client := {| client_id := app; flow_refresh_tokens := true |};
     auth_access_token := "AT"; auth_expires_at := expires |}.

Definition auth_client_of (app : string) (expires : Z) : AuthClient :=
  {| ac_authorizer := authorizer app expires |}.

Definition transfer_client_of (app : string) (expires : Z) : TransferClient :=
  {| tc_authorizer := authorizer app expires |}.

End Samples.
(** ** Counting calls *)

(** How many events of a history are calls that [p] accepts. *)
Fixpoint count_calls (p : Call -> bool) (evs : list Event) : nat :=
  match evs with
  | [] => 0%nat
  | ev :: evs' =>
      if p (ev_call ev) then S (count_calls p evs') else count_calls p evs'
  end.

Definition is_exchange_call (c : Call) : bool :=
  match c with CExchange _ _ => true | _ => false end.

Definition is_save_call (c : Call) : bool :=
  match c with CSave _ _ => true | _ => false end.

Definition is_time_call (c : Call) : bool :=
  match c with CTime => true | _ => false end.

(** ** The calls of [create_dir] and of [share] *)

(** Besides the token lifecycle, [create_dir] may only ask for the
    directory ['/' + directory + '/'] to be made on the given endpoint. *)
Definition create_dir_call (directory ep_uuid : string) (c : Call) : bool :=
  lifecycle_call c ||
  match c with
  | CMkdir _ ep path =>
      String.eqb ep ep_uuid && String.eqb path ("/" +:+ directory +:+ "/")
  | _ => false
  end.

(** The one shape of access rule [share] submits. *)
Definition share_rule (directory email : string) (rule : RuleData) : bool :=
  String.eqb (DATA_TYPE rule) "access"
  && String.eqb (principal_type rule) "identity"
  && String.eqb (rule_path rule) ("/" +:+ directory +:+ "/")
  && String.eqb (permissions rule) "r"
  && String.eqb (notify_email rule) email.

(** Besides the token lifecycle, [share] may list the directory, look
    the email up, and submit a rule of that shape on the endpoint. *)
Definition share_call (directory email ep_uuid : string) (c : Call) : bool :=
  lifecycle_call c ||
  match c with
  | CLs _ ep path => String.eqb ep ep_uuid && String.eqb path directory
  | CGetIdentities _ usernames => String.eqb usernames email
  | CAddAcl _ ep rule => String.eqb ep ep_uuid && share_rule directory email rule
  | _ => false
  end.

(** ** Listings *)

(** The names of the entries of type [t], in the order of the listing. *)
Definition names_of (t : string) (data : list DirEntry) : list string :=
  item_name <$> filter (fun item => item_type item = t) data.

(** The line [find_files] logs for an entry. *)
Definition entry_line (directory : string) (item : DirEntry) : Event :=
  Ev (CLog INFO ("directory " +:+ directory +:+ " contains "
                 +:+ item_type item +:+ ": " +:+ item_name item) [])
     None.

(** The line [find_endpoints] logs for an endpoint when asked to show. *)
Definition endpoint_line (ep : Endpoint) : Event :=
  Ev (CLog INFO ("*** *** [" +:+ ep_id ep +:+ "] " +:+ ep_display_name ep) [])
     None.

(** ** More sample data *)

Module MoreSamples.

(** A token response that has no entry for the transfer service. *)
Definition auth_only_record : TokenResponse :=
  {| by_resource_server :=
       {[ "auth.globus.org" := Samples.transfer_data 500 ]} |}.

(** The same environment with another answer to identity lookups. *)
Definition with_identities (E : Env) (answer : exn + list string) : Env :=
  {| home := home E; clock := clock E; authorize_url := authorize_url E;
     exchange_code_for_tokens := exchange_code_for_tokens E;
     save_error := save_error E; save_truncates := save_truncates E;
     mkdir_error := mkdir_error E;
     ls_error := ls_error E;
     identities := fun _ _ _ => answer; acl_error := acl_error E;
     search := search E |}.

(** ... to [add_endpoint_acl_rule]. *)
Definition with_acl (E : Env) (err : option exn) : Env :=
  {| home := home E; clock := clock E; authorize_url := authorize_url E;
     exchange_code_for_tokens := exchange_code_for_tokens E;
     save_error := save_error E; save_truncates := save_truncates E;
     mkdir_error := mkdir_error E;
     ls_error := ls_error E;
     identities := identities E; acl_error := fun _ _ _ _ => err;
     search := search E |}.

(** The same environment with saves that fail with [e]; [opened] says
    whether the file had been opened for writing before the failure. *)
Definition with_failing_save (E : Env) (e : exn) (opened : bool) : Env :=
  {| home := home E; clock := clock E; authorize_url := authorize_url E;
     exchange_code_for_tokens := exchange_code_for_tokens E;
     save_error := fun _ _ => Some e; save_truncates := fun _ _ => opened;
     mkdir_error := mkdir_error E; ls_error := ls_error E;
     identities := identities E; acl_error := acl_error E;
     search := search E |}.

(** A listing with two files, two folders and a dangling link. *)
Definition listing : list DirEntry :=
  [ {| item_type := "file"; item_name := "scan_001.h5" |};
    {| item_type := "dir"; item_name := "raw" |};
    {| item_type := "invalid_symlink"; item_name := "latest" |};
    {| item_type := "file"; item_name := "scan_002.h5" |};
    {| item_type := "dir"; item_name := "rec" |} ].

Definition ls_data
  : list Event -> TransferClient -> string -> string -> list DirEntry :=
  fun _ _ _ _ => listing.

Definition get_tlsftp_server : TransferClient -> string -> M string :=
  fun _ _ => ret "tlsftp://g-1a2b3c.fd635.8443.data.globus.org:443".

End MoreSamples.

(** ** An SDK that renews access tokens

    Requests of the clients go through the authorizer [create_clients]
    builds.  This environment answers a listing the way the SDK's
    [RefreshTokenAuthorizer] makes it answer: when the access token of
    the client expires within a minute, the refresh token the client
    was built with is redeemed first, and the request fails with the
    auth service's refusal unless that token is the one the service
    issued. *)

Module RenewingSdk.

Definition now : Q := 100.

Definition issued_refresh_token : string := "RT".

Definition request_error (tc : TransferClient) : option exn :=
  let authorizer := tc_authorizer tc in
  if (auth_expires_at authorizer <=? 160)%Z then
    if decide (auth_refresh_token authorizer = Some issued_refresh_token)
    then None
    else Some (AuthAPIError "invalid_grant")
  else None.

Definition env : Env :=
  {| home := "/home/user";
     clock := fun _ => now;
     authorize_url := fun app => "https://auth.globus.org/authorize?client_id=" +:+ app;
     exchange_code_for_tokens := fun _ _ _ => inr (Samples.record 500);
     save_error := fun _ _ => None;
     save_truncates := fun _ _ => false;
     mkdir_error := fun _ tc _ _ => request_error tc;
     ls_error := fun _ tc _ _ => request_error tc;
     identities := fun _ _ _ => inr ["user-id"];
     acl_error := fun _ tc _ _ => request_error tc;
     search := fun _ _ _ => inr [] |}.

(** A stored record with thirty seconds to live and the given refresh
    token; the console is closed. *)
Definition world (stored_refresh_token : string) : World :=
  Samples.world_with
    (Npy {| by_resource_server :=
              {[ transfer_server :=
                   {| refresh_token := Some stored_refresh_token;
                      access_token := "AT";
                      expires_at_seconds := 130 |} ]} |})
    [].

End RenewingSdk.
(** * Properties *)

Lemma Qltb_lt (x y : Q) : Qltb x y = true <-> x < y.
Proof.
  unfold Qltb. rewrite Qlt_alt. destruct (x ?= y); intuition congruence.
Qed.

Lemma Qltb_ge (x y : Q) : Qltb x y = false <-> y <= x.
Proof.
  pose proof (Qltb_lt x y) as H. pose proof (Qle_not_lt y x) as H1.
  pose proof (Qnot_lt_le x y) as H2.
  destruct (Qltb x y); intuition congruence.
Qed.

Lemma emitted_app (w w' : World) (evs : list Event) :
  trace w' = trace w ++ evs -> emitted w w' = evs.
Proof. intros H. unfold emitted. rewrite H. apply drop_app_length. Qed.

Ltac run_refresh :=
  unfold refresh_globus_token, create_new_token, bind, try_except, np_load,
    np_save, time_time, input, oauth2_exchange_code_for_tokens, getitem,
    log, ret, raise, emit, oauth2_get_authorize_url, new_native_client;
  simpl.

Lemma refresh_reuse_eq (E : Env) (app_uuid : string) (w : World)
    (r : TokenResponse) (d : TokenData) :
  fs w !! globus_token_file E = Some (Npy r) ->
  by_resource_server r !! transfer_server = Some d ->
  0 <= life d (clock E (ticks w)) ->
  refresh_globus_token E app_uuid w =
    (inr r,
     {| fs := fs w; stdin := stdin w; ticks := S (ticks w);
        trace := trace w ++ [Ev (CLoad (globus_token_file E)) None;
                             Ev CTime None] |}).
Proof.
  intros Hf Hd Hl. run_refresh. rewrite Hf. simpl. rewrite Hd. simpl.
  apply Qltb_ge in Hl. unfold life in Hl. rewrite Hl.
  by rewrite <- app_assoc.
Qed.

Lemma create_new_token_run (E : Env) (app_uuid : string) (w : World) :
  new_token_run E app_uuid w (create_new_token E app_uuid w).
Proof.
  run_refresh. destruct (stdin w) as [|line rest] eqn:Hin; simpl.
  - rewrite <- ?app_assoc. by apply NT_eof.
  - rewrite <- ?app_assoc. simpl.
    destruct (exchange_code_for_tokens E _ _ _) as [e|x] eqn:Hx; simpl.
    + rewrite <- ?app_assoc. simpl. by eapply NT_refused.
    + rewrite <- ?app_assoc. simpl.
      destruct (save_error E _ _) as [e|] eqn:Hs; simpl;
        rewrite <- ?app_assoc; simpl.
      * by eapply NT_unsaved.
      * by eapply NT_stored.
Qed.

Lemma refresh_globus_token_run (E : Env) (app_uuid : string) (w : World) :
  refresh_run E app_uuid w (refresh_globus_token E app_uuid w).
Proof.
  unfold refresh_globus_token, bind at 1, try_except, np_load.
  destruct (fs w !! globus_token_file E) as [[r| |what]|] eqn:Hf; simpl.
  - eapply RR_checked; [by apply LP_loaded|].
    unfold getitem.
    destruct (by_resource_server r !! transfer_server) as [d|] eqn:Hd.
    + unfold bind, ret, time_time. simpl.
      destruct (Qltb _ 0) eqn:Hl.
      * eapply CP_replaced; [done| by apply Qltb_lt |].
        apply create_new_token_run.
      * eapply CP_kept; [done|]. by apply Qltb_ge.
    + unfold bind, raise. by apply CP_no_transfer.
  - apply RR_load_failed. by apply LP_garbage.
  - apply RR_load_failed. by apply LP_unreadable.
  - unfold bind at 1, log at 1.
    pose proof (create_new_token_run E app_uuid
      (emit (CLog ERROR "Globus token is missing. Creating one" []) None
         (emit (CLoad (globus_token_file E)) (Some FileNotFoundError) w)))
      as Hnew.
    destruct (create_new_token E app_uuid _) as [[e|r] w1] eqn:Hc.
    + apply RR_load_failed. by apply LP_missing.
    + eapply RR_checked; [by apply LP_missing|].
      unfold getitem.
      destruct (by_resource_server r !! transfer_server) as [d|] eqn:Hd.
      * unfold bind, ret, time_time. simpl.
        destruct (Qltb _ 0) eqn:Hl.
        -- eapply CP_replaced; [done| by apply Qltb_lt |].
           apply create_new_token_run.
        -- eapply CP_kept; [done|]. by apply Qltb_ge.
      * unfold bind, raise. by apply CP_no_transfer.
Qed.

Ltac trace_norm := simpl; rewrite <- ?app_assoc; simpl.

Lemma refresh_expired_eq (E : Env) (app_uuid : string) (w : World)
    (r : TokenResponse) (d : TokenData) :
  fs w !! globus_token_file E = Some (Npy r) ->
  by_resource_server r !! transfer_server = Some d ->
  life d (clock E (ticks w)) < 0 ->
  refresh_globus_token E app_uuid w =
    create_new_token E app_uuid
      (after_time (emit (CLoad (globus_token_file E)) None w)).
Proof.
  intros Hf Hd Hl. apply Qltb_lt in Hl. unfold life in Hl.
  unfold refresh_globus_token at 1, bind, try_except, np_load, getitem,
    time_time, ret.
  rewrite Hf. rewrite Hd. simpl. by rewrite Hl.
Qed.

Lemma life_neg (d : TokenData) (now : Q) :
  life d now < 0 <-> inject_Z (expires_at_seconds d) < now.
Proof. unfold life. split; intros H; lra. Qed.

Lemma life_pos (d : TokenData) (now : Q) :
  0 < life d now <-> now < inject_Z (expires_at_seconds d).
Proof. unfold life. split; intros H; lra. Qed.

(** ** The token lifecycle *)

(** C2. A credential file whose record expires strictly after the clock
    reading of the call is reused: the loaded record is returned as it
    is, the file system and the console are untouched, and the call's
    only interactions are the load and the reading of the clock -- no
    authorization URL, no prompt, no exchange, no save. *)
Theorem refresh_reuses_unexpired_record
    (E : Env) (app_uuid : string) (w : World)
    (r : TokenResponse) (d : TokenData) :
  fs w !! globus_token_file E = Some (Npy r) ->
  by_resource_server r !! transfer_server = Some d ->
  clock E (ticks w) < inject_Z (expires_at_seconds d) ->
  let '(res, w') := refresh_globus_token E app_uuid w in
  res = inr r /\ fs w' = fs w /\ stdin w' = stdin w /\
  emitted w w' = [Ev (CLoad (globus_token_file E)) None; Ev CTime None].
Proof.
  intros Hf Hd Hl. apply life_pos in Hl.
  rewrite (refresh_reuse_eq E app_uuid w r d Hf Hd) by lra.
  repeat split. by apply emitted_app.
Qed.

Lemma refresh_reuses_unexpired_record_witness :
  let E := Samples.env (fun _ => 100) 500 in
  let w := Samples.world 200 ["code"] in
  let '(res, w') := refresh_globus_token E "app" w in
  res = inr (Samples.record 200) /\ fs w' = fs w /\ stdin w' = ["code"] /\
  emitted w w' = [Ev (CLoad Samples.token_path) None; Ev CTime None].
Proof.
  apply (refresh_reuses_unexpired_record
           (Samples.env (fun _ => 100) 500) "app"
           (Samples.world 200 ["code"]) (Samples.record 200)
           (Samples.transfer_data 200)).
  - vm_compute. reflexivity.
  - vm_compute. reflexivity.
  - vm_compute. reflexivity.
Defined.

(** C1. A credential file whose record expires strictly before the clock
    reading of the call is not reused.  The call goes on to the
    interactive exchange: it shows the authorization URL and prompts for
    the code.  Whatever record it returns is the answer of the
    authorization-code exchange to the code typed at the console, and has
    replaced the file's contents; and it does return that record whenever
    a line is typed, the service answers the code and the save
    succeeds. *)
Theorem refresh_reauthorizes_expired_record
    (E : Env) (app_uuid : string) (w : World)
    (r : TokenResponse) (d : TokenData) :
  fs w !! globus_token_file E = Some (Npy r) ->
  by_resource_server r !! transfer_server = Some d ->
  inject_Z (expires_at_seconds d) < clock E (ticks w) ->
  let '(res, w') := refresh_globus_token E app_uuid w in
  (exists o rest,
      emitted w w' =
        [Ev (CLoad (globus_token_file E)) None; Ev CTime None;
         url_event E app_uuid; Ev (CInput code_prompt) o] ++ rest) /\
  (forall x, res = inr x ->
     exists line,
       head (stdin w) = Some line /\
       stdin w' = tail (stdin w) /\
       exchange_code_for_tokens E
         (trace w ++ [Ev (CLoad (globus_token_file E)) None; Ev CTime None;
                      url_event E app_uuid; Ev (CInput code_prompt) None])
         app_uuid (strip line) = inr x /\
       Ev (CExchange app_uuid (strip line)) None ∈ emitted w w' /\
       Ev (CSave (globus_token_file E) x) None ∈ emitted w w' /\
       fs w' = <[globus_token_file E := Npy x]> (fs w)) /\
  (forall line rest x,
     stdin w = line :: rest ->
     (forall h, exchange_code_for_tokens E h app_uuid (strip line) = inr x) ->
     (forall h, save_error E h (globus_token_file E) = None) ->
     res = inr x /\ fs w' = <[globus_token_file E := Npy x]> (fs w)).
Proof.
  intros Hf Hd Hl. apply life_neg in Hl.
  rewrite (refresh_expired_eq E app_uuid w r d Hf Hd Hl).
  pose proof (create_new_token_run E app_uuid
    (after_time (emit (CLoad (globus_token_file E)) None w))) as Hrun.
  destruct (create_new_token E app_uuid _) as [res w'].
  inversion Hrun as [Hin|line rest e Hin Hx|line rest x e Hin Hx Hs
                    |line rest x Hin Hx Hs]; subst; simpl in *.
  - split; [|split].
    + eexists _, []. apply emitted_app. by trace_norm.
    + intros x [=].
    + intros line rest x Hin'. congruence.
  - split; [|split].
    + eexists _, [_]. apply emitted_app. by trace_norm.
    + intros x [=].
    + intros line' rest' x Hin' Hx' _. exfalso.
      rewrite Hin in Hin'. injection Hin' as <- <-.
      rewrite Hx' in Hx. discriminate.
  - split; [|split].
    + eexists _, [_; _]. apply emitted_app. by trace_norm.
    + intros y [=].
    + intros line' rest' y Hin' _ Hs'. exfalso.
      rewrite Hs' in Hs. discriminate.
  - split; [|split].
    + eexists _, [_; _]. apply emitted_app. by trace_norm.
    + intros y [= <-]. exists line. rewrite Hin. simpl.
      repeat split; try done.
      * rewrite <- Hx. f_equal. by trace_norm.
      * erewrite emitted_app by (by trace_norm). set_solver.
      * erewrite emitted_app by (by trace_norm). set_solver.
    + intros line' rest' y Hin' Hx' _.
      rewrite Hin in Hin'. injection Hin' as <- <-.
      rewrite Hx' in Hx. injection Hx as ->. done.
Qed.

Lemma refresh_reauthorizes_expired_record_witness :
  let E := Samples.env (fun _ => 100) 500 in
  let w := Samples.world 50 [" code "] in
  let '(res, w') := refresh_globus_token E "app" w in
  res = inr (Samples.record 500) /\
  fs w' = <[Samples.token_path := Npy (Samples.record 500)]> (fs w).
Proof.
  intros E w.
  pose proof (refresh_reauthorizes_expired_record E "app" w
                (Samples.record 50) (Samples.transfer_data 50)) as H.
  destruct (refresh_globus_token E "app" w) as [res w'].
  destruct H as (_ & _ & H).
  - vm_compute. reflexivity.
  - vm_compute. reflexivity.
  - vm_compute. reflexivity.
  - apply (H " code " [] (Samples.record 500)); reflexivity.
Defined.

Ltac invert_runs :=
  repeat match goal with
  | H : refresh_run _ _ _ _ |- _ => inversion H; subst; clear H
  | H : load_phase _ _ _ _ |- _ => inversion H; subst; clear H
  | H : check_phase _ _ _ _ _ |- _ => inversion H; subst; clear H
  | H : new_token_run _ _ _ _ |- _ => inversion H; subst; clear H
  end.

Ltac start_refresh E app w res w' :=
  let Hrun := fresh "Hrun" in
  pose proof (refresh_globus_token_run E app w) as Hrun;
  destruct (refresh_globus_token E app w) as [res w'].

(** The load phase never reads the clock. *)
Lemma load_phase_ticks (E : Env) (app_uuid : string) (w : World) res w1 :
  load_phase E app_uuid w (res, w1) -> ticks w1 = ticks w.
Proof. intros H. by invert_runs. Qed.




Ltac solve_emitted :=
  erewrite emitted_app by (by trace_norm).

(** C7, as the code has it.  A call touches no path but the credential
    file and removes nothing.  It attempts a save only if the file was
    absent at the load or the stored record was expired.  A save that
    succeeds puts a complete record in place of whatever was there, and
    when no save fails the file system at the end is the one at the
    start with those replacements made.  A save that fails ends the call
    with its exception, and leaves the credential file either as the
    saves before it left it or truncated. *)
Theorem credential_file_written_only_by_saves
    (E : Env) (app_uuid : string) (w : World) :
  let '(res, w') := refresh_globus_token E app_uuid w in
  (forall p, p ≠ globus_token_file E -> fs w' !! p = fs w !! p) /\
  (forall p, is_Some (fs w !! p) -> is_Some (fs w' !! p)) /\
  (forall p x o, Ev (CSave p x) o ∈ emitted w w' ->
     p = globus_token_file E /\
     (fs w !! globus_token_file E = None \/ stored_expired E w)) /\
  ((forall p x e, Ev (CSave p x) (Some e) ∉ emitted w w') ->
   fs w' = replay_saves (emitted w w') (fs w) /\
   (fs w' = fs w \/
    exists x, fs w' = <[globus_token_file E := Npy x]> (fs w))) /\
  (forall p x e, Ev (CSave p x) (Some e) ∈ emitted w w' ->
     res = inl e /\
     last (emitted w w') = Some (Ev (CSave p x) (Some e)) /\
     (fs w' = replay_saves (emitted w w') (fs w) \/
      fs w' !! globus_token_file E = Some Garbage)).
Proof.
  start_refresh E app_uuid w res w'.
  assert (forall r d, fs w !! globus_token_file E = Some (Npy r) ->
            by_resource_server r !! transfer_server = Some d ->
            life d (clock E (ticks w)) < 0 -> stored_expired E w) as Hexp.
  { intros r d Hf Hd Hl. exists r, d. by rewrite <- life_neg. }
  invert_runs; simpl in *; solve_emitted; simpl;
    rewrite ?insert_insert_eq.
  all: repeat match goal with
       | |- context [if save_truncates ?E ?h ?p then _ else _] =>
           destruct (save_truncates E h p)
       end; rewrite ?insert_insert_eq.
  all: split; [intros p Hne; try done; by rewrite lookup_insert_ne|].
  all: split;
    [intros p Hp; try done;
     (destruct (decide (globus_token_file E = p)) as [<-|Hne];
      [by rewrite lookup_insert_eq | by rewrite lookup_insert_ne])|].
  all: split;
    [intros p y o Hin; unfold url_event in Hin; set_unfold in Hin;
     destruct_or!; simplify_eq; eauto|].
  all: split;
    [ intros Hno;
      first
        [ split; [reflexivity|]; first [by left | right; by eexists]
        | exfalso; eapply Hno;
          repeat first [apply list_elem_of_here | apply list_elem_of_further] ]
    | intros p y e' Hin; unfold url_event in Hin; set_unfold in Hin;
      destruct_or!; simplify_eq;
      (split; [done|]; split; [done|];
       first [by left | right; by rewrite lookup_insert_eq]) ].
Qed.

(** C7 as stated fails when a save fails after the file was opened: the
    expired record that was in the file is gone, and what is there
    instead is not a record at all. *)
Lemma failed_save_leaves_a_truncated_file :
  let E := MoreSamples.with_failing_save (Samples.env (fun _ => 100) 500)
             (OSError "No space left on device") true in
  let w := Samples.world 50 ["code"] in
  let '(res, w') := refresh_globus_token E "app" w in
  res = inl (OSError "No space left on device") /\
  fs w !! globus_token_file E = Some (Npy (Samples.record 50)) /\
  fs w' !! globus_token_file E = Some Garbage /\
  last (emitted w w')
    = Some (Ev (CSave (globus_token_file E) (Samples.record 500))
              (Some (OSError "No space left on device"))).
Proof. vm_compute. repeat split. Qed.

(** C5. Of all the failures a call can meet, only the missing file is
    handled.  When the file is absent the load's [FileNotFoundError] is
    followed by the interactive creation, step by step: the notice, the
    authorization URL, the prompt; then the exchange of the stripped
    line for the application; then the save of the answer under the
    credential path; and after a successful save the check of lines
    41-64 on the record just stored.  Every other exception raised by an
    interaction -- loading a corrupt or unreadable file, the console,
    the token exchange, the save -- ends the call at once and is its
    result. *)
Theorem only_missing_file_is_handled
    (E : Env) (app_uuid : string) (w : World) :
  let '(res, w') := refresh_globus_token E app_uuid w in
  (fs w !! globus_token_file E = None ->
   let missing :=
     [Ev (CLoad (globus_token_file E)) (Some FileNotFoundError);
      Ev (CLog ERROR "Globus token is missing. Creating one" []) None;
      url_event E app_uuid] in
   (stdin w = [] ->
    res = inl EOFError /\
    emitted w w' = missing ++ [Ev (CInput code_prompt) (Some EOFError)]) /\
   (forall line rest, stdin w = line :: rest ->
      let asked := missing ++ [Ev (CInput code_prompt) None] in
      let exchange := CExchange app_uuid (strip line) in
      (forall e,
         exchange_code_for_tokens E (trace w ++ asked) app_uuid (strip line)
           = inl e ->
         res = inl e /\
         emitted w w' = asked ++ [Ev exchange (Some e)]) /\
      (forall x,
         exchange_code_for_tokens E (trace w ++ asked) app_uuid (strip line)
           = inr x ->
         let answered := asked ++ [Ev exchange None] in
         let save := CSave (globus_token_file E) x in
         (forall e,
            save_error E (trace w ++ answered) (globus_token_file E)
              = Some e ->
            res = inl e /\
            emitted w w' = answered ++ [Ev save (Some e)]) /\
         (save_error E (trace w ++ answered) (globus_token_file E) = None ->
          check_phase E app_uuid x
            {| fs := <[globus_token_file E := Npy x]> (fs w);
               stdin := rest; ticks := ticks w;
               trace := trace w ++ answered ++ [Ev save None] |}
            (res, w'))))) /\
  (forall c e, Ev c (Some e) ∈ emitted w w' ->
     (c = CLoad (globus_token_file E) /\ e = FileNotFoundError /\
      fs w !! globus_token_file E = None) \/
     (res = inl e /\ last (emitted w w') = Some (Ev c (Some e)))) /\
  (fs w !! globus_token_file E = Some Garbage -> res = inl UnpicklingError) /\
  (forall what, fs w !! globus_token_file E = Some (Unreadable what) ->
     res = inl (OSError what)).
Proof.
  pose proof (refresh_globus_token_run E app_uuid w) as Hrun.
  destruct (refresh_globus_token E app_uuid w) as [res w'].
  split.
  - intros Hf. cbv zeta.
    assert (exists r1 w1,
              new_token_run E app_uuid
                (emit (CLog ERROR "Globus token is missing. Creating one" [])
                   None
                   (emit (CLoad (globus_token_file E))
                      (Some FileNotFoundError) w)) (r1, w1) /\
              match r1 with
              | inl e => (res, w') = (inl e, w1)
              | inr t => check_phase E app_uuid t w1 (res, w')
              end) as (r1 & w1 & Hnew & Hrest).
    { inversion Hrun as [e w1 Hload|t w1 r Hload Hcheck]; subst;
        inversion Hload; subst; try congruence; by eexists _, _. }
    clear Hrun.
    inversion Hnew as [Hin|line rest e Hin Hx|line rest x e Hin Hx Hs
                      |line rest x Hin Hx Hs]; subst; simpl in *;
      rewrite <- ?app_assoc in *; simpl in *;
      try (injection Hrest as -> ->).
    all: split;
      [ intros Hnil; try congruence;
        (split; [done|]; apply emitted_app; by trace_norm)
      | intros line' rest' Hin'; try congruence;
        rewrite Hin in Hin'; injection Hin' as <- <- ].
    all: split;
      [ intros e' He'; try congruence;
        (rewrite Hx in He'; injection He' as <-;
         split; [done|]; apply emitted_app; by trace_norm)
      | intros x' Hx'; try congruence;
        rewrite Hx in Hx'; injection Hx' as <- ].
    all: split;
      [ intros e' Hs'; try congruence;
        (rewrite Hs in Hs'; injection Hs' as <-;
         split; [done|]; apply emitted_app; by trace_norm)
      | intros Hs'; try congruence; exact Hrest ].
  - invert_runs; simpl in *; solve_emitted; simpl.
    all: repeat match goal with
         | |- context [if save_truncates ?E ?h ?p then _ else _] =>
             destruct (save_truncates E h p)
         end.
    all: split;
      [intros c e' Hin; unfold url_event in Hin; set_unfold in Hin;
       destruct_or!; simplify_eq; first [by left | by right]|].
    all: split; [intros Hf | intros what' Hf]; congruence.
Qed.

(** ** A small logic of histories *)

Lemma calls_only_ret {A} (ok : Call -> bool) (a : A) : calls_only ok (ret a).
Proof. intros w. exists []. by rewrite app_nil_r. Qed.

Lemma calls_only_raise {A} (ok : Call -> bool) (e : exn) :
  calls_only ok (raise (A:=A) e).
Proof. intros w. exists []. by rewrite app_nil_r. Qed.

Lemma calls_only_bind {A B} (ok : Call -> bool) (m : M A) (k : A -> M B) :
  calls_only ok m -> (forall a, calls_only ok (k a)) -> calls_only ok (bind m k).
Proof.
  intros Hm Hk w. unfold bind. destruct (Hm w) as (evs & Ht & Hok).
  destruct (m w) as [[e|a] w1]; simpl in *.
  - by exists evs.
  - destruct (Hk a w1) as (evs' & Ht' & Hok').
    exists (evs ++ evs'). rewrite Ht', Ht, app_assoc.
    split; [done|]. by apply Forall_app.
Qed.

Lemma calls_only_try_except {A} (ok : Call -> bool) (body : M A)
    (handler : exn -> option (M A)) :
  calls_only ok body ->
  (forall e h, handler e = Some h -> calls_only ok h) ->
  calls_only ok (try_except body handler).
Proof.
  intros Hb Hh w. unfold try_except. destruct (Hb w) as (evs & Ht & Hok).
  destruct (body w) as [[e|a] w1]; simpl in *.
  - destruct (handler e) as [h|] eqn:He; [|by exists evs].
    destruct (Hh e h He w1) as (evs' & Ht' & Hok').
    exists (evs ++ evs'). rewrite Ht', Ht, app_assoc.
    split; [done|]. by apply Forall_app.
  - by exists evs.
Qed.

Lemma calls_only_mono {A} (ok ok' : Call -> bool) (m : M A) :
  (forall c, ok c = true -> ok' c = true) ->
  calls_only ok m -> calls_only ok' m.
Proof.
  intros Hsub Hm w. destruct (Hm w) as (evs & Ht & Hok).
  exists evs. split; [done|].
  eapply Forall_impl; [exact Hok|]. intros ev. apply Hsub.
Qed.

Ltac one_call :=
  let w := fresh "w" in
  intros w; simpl;
  repeat match goal with
         | |- context [match ?x with _ => _ end] => destruct x; simpl
         end;
  (eexists (cons _ nil); split; [reflexivity|];
   constructor; [simpl; assumption | constructor]).

Lemma calls_only_log ok lvl msg args :
  ok (CLog lvl msg args) = true -> calls_only ok (log lvl msg args).
Proof. intros H. unfold log, emit. one_call. Qed.

Lemma calls_only_np_load ok path :
  ok (CLoad path) = true -> calls_only ok (np_load path).
Proof. intros H. unfold np_load, emit. one_call. Qed.

Lemma calls_only_np_save E ok path obj :
  ok (CSave path obj) = true -> calls_only ok (np_save E path obj).
Proof. intros H. unfold np_save, emit. one_call. Qed.

Lemma calls_only_time_time E ok :
  ok CTime = true -> calls_only ok (time_time E).
Proof. intros H. unfold time_time. one_call. Qed.

Lemma calls_only_input ok prompt :
  ok (CInput prompt) = true -> calls_only ok (input prompt).
Proof. intros H. unfold input, emit. one_call. Qed.

Lemma calls_only_exchange E ok client code :
  ok (CExchange (client_id client) code) = true ->
  calls_only ok (oauth2_exchange_code_for_tokens E client code).
Proof. intros H. unfold oauth2_exchange_code_for_tokens, emit. one_call. Qed.

Lemma calls_only_operation_ls E ok tc ep path :
  ok (CLs tc ep path) = true -> calls_only ok (operation_ls E tc ep path).
Proof. intros H. unfold operation_ls, emit. one_call. Qed.

Lemma calls_only_endpoint_search E ok tc scope :
  ok (CEndpointSearch tc scope) = true ->
  calls_only ok (endpoint_search E tc scope).
Proof. intros H. unfold endpoint_search, emit. one_call. Qed.

Lemma calls_only_getitem ok d key : calls_only ok (getitem d key).
Proof.
  unfold getitem. destruct (d !! key);
    [apply calls_only_ret | apply calls_only_raise].
Qed.

Lemma calls_only_for_in {A S} ok (l : list A) (body : A -> S -> M S) (s : S) :
  (forall x s', calls_only ok (body x s')) -> calls_only ok (for_in l body s).
Proof.
  intros Hb. revert s. induction l as [|x l IH]; intros s; simpl.
  - apply calls_only_ret.
  - apply calls_only_bind; [apply Hb | intros s'; apply IH].
Qed.

Create HintDb calls discriminated.
#[local] Hint Resolve calls_only_ret calls_only_raise calls_only_log
  calls_only_np_load calls_only_np_save calls_only_time_time
  calls_only_input calls_only_exchange calls_only_operation_ls
  calls_only_endpoint_search calls_only_getitem : calls.

Lemma create_new_token_calls E app_uuid :
  calls_only lifecycle_call (create_new_token E app_uuid).
Proof.
  unfold create_new_token.
  repeat (apply calls_only_bind; [|intros ?]); auto with calls.
Qed.

Lemma refresh_globus_token_calls E app_uuid :
  calls_only lifecycle_call (refresh_globus_token E app_uuid).
Proof.
  unfold refresh_globus_token.
  apply calls_only_bind; [|intros token_response].
  - apply calls_only_try_except; [auto with calls|].
    intros e h. destruct (is_FileNotFoundError e); intros [= <-].
    apply calls_only_bind; [auto with calls|intros _].
    apply create_new_token_calls.
  - apply calls_only_bind; [auto with calls|intros d].
    apply calls_only_bind; [auto with calls|intros now].
    destruct (Qltb _ 0); [apply create_new_token_calls|auto with calls].
Qed.

Lemma create_clients_calls E app_uuid :
  calls_only lifecycle_call (create_clients E app_uuid).
Proof.
  unfold create_clients.
  apply calls_only_bind; [apply refresh_globus_token_calls|intros ?].
  repeat (apply calls_only_bind; [|intros ?]); auto with calls.
Qed.


(** ** The transfer-client wrappers *)

(** C4. Once the clients are there, [check_folder_exists] makes exactly
    one listing call and classifies its outcome: [True] when the listing
    succeeds, [False] exactly when it raises a [TransferAPIError] whose
    code is "ClientError.NotFound", and any other exception the listing
    raises is the exception of the call. *)
Theorem check_folder_exists_classifies_the_listing
    (E : Env) (directory app_uuid ep_uuid : string) (w w1 : World)
    (ac : AuthClient) (tc : TransferClient) :
  create_clients E app_uuid w = (inr (ac, tc), w1) ->
  let err := ls_error E (trace w1) tc ep_uuid directory in
  let '(res, w') := check_folder_exists E directory app_uuid ep_uuid w in
  (res = inr true <-> err = None) /\
  (res = inr false <->
   exists m, err = Some (TransferAPIError "ClientError.NotFound" m)) /\
  (forall e, err = Some e ->
     (forall m, e <> TransferAPIError "ClientError.NotFound" m) ->
     res = inl e) /\
  emitted w1 w' = [Ev (CLs tc ep_uuid directory) err].
Proof.
  intros Hc err. unfold check_folder_exists, bind at 1. rewrite Hc.
  unfold try_except, bind, operation_ls, ret, raise. fold err.
  destruct err as [e|] eqn:Herr; simpl.
  - destruct e as [| | | | | | | |code m|]; simpl;
      try (repeat split; try (by apply emitted_app);
           try (intros [=]); try (by intros [m' [=]]);
           by intros e' [= <-] _).
    destruct (String.eqb_spec code "ClientError.NotFound") as [->|Hne].
    + repeat split; try (by apply emitted_app); try (intros [=]).
      * by exists m.
      * intros e' [= <-] Hno. by destruct (Hno m).
    + repeat split; try (by apply emitted_app); try (intros [=]).
      * intros [m' [= -> _]]. done.
      * by intros e' [= <-] _.
  - repeat split; try (by apply emitted_app); try (intros [=]); try done.
    by intros [m [=]].
Qed.

Lemma check_folder_exists_classifies_the_listing_witness :
  let E := Samples.env (fun _ => 100) 500 in
  let w := Samples.world 200 [] in
  let '(res, w') := check_folder_exists E "data" "app" "ep" w in
  res = inr true.
Proof.
  intros E w.
  assert (create_clients E "app" w =
            (inr (Samples.auth_client_of "app" 200,
                  Samples.transfer_client_of "app" 200),
             (create_clients E "app" w).2)) as Hc
    by (vm_compute; reflexivity).
  pose proof (check_folder_exists_classifies_the_listing
                E "data" "app" "ep" w _ _ _ Hc) as H.
  cbv zeta in H.
  destruct (check_folder_exists E "data" "app" "ep" w) as [res w'].
  destruct H as (H & _). by apply H.
Defined.

Lemma check_folder_exists_calls E directory app_uuid ep_uuid :
  calls_only (fun c => lifecycle_call c || is_ls_call c)
    (check_folder_exists E directory app_uuid ep_uuid).
Proof.
  unfold check_folder_exists.
  apply calls_only_bind; [|intros [ac tc]].
  - eapply calls_only_mono; [|apply create_clients_calls].
    intros c Hc. by rewrite Hc.
  - apply calls_only_try_except.
    + apply calls_only_bind; [|intros _]; auto with calls.
    + intros e h. destruct (is_TransferAPIError e); intros [= <-].
      destruct (String.eqb _ _); auto with calls.
Qed.

(** C9. When [check_folder_exists] answers [False], [share] logs two
    error lines and falls off its end: the result is [None], neither
    [True] nor [False]; no access rule is submitted anywhere in the call,
    and files and console are as the existence check left them. *)
Theorem share_of_missing_directory_returns_None
    (E : Env) (directory email app_uuid ep_uuid : string) (w w1 : World) :
  check_folder_exists E directory app_uuid ep_uuid w = (inr false, w1) ->
  let '(res, w') := share E directory email app_uuid ep_uuid w in
  res = inr None /\
  emitted w1 w' =
    [Ev (CLog ERROR (directory +:+ " does not exist") []) None;
     Ev (CLog ERROR
           "Run: python globus.py create --directory <directory name>" [])
        None] /\
  (forall tc ep rule o, Ev (CAddAcl tc ep rule) o ∉ emitted w w') /\
  fs w' = fs w1 /\ stdin w' = stdin w1.
Proof.
  intros Hc. unfold share, bind at 1. rewrite Hc.
  unfold bind, log, ret, emit. simpl.
  split; [done|]. split; [apply emitted_app; by trace_norm|].
  split; [|done].
  destruct (check_folder_exists_calls E directory app_uuid ep_uuid w)
    as (evs & Ht & Hok).
  rewrite Hc in Ht. simpl in Ht.
  intros tc ep rule o Hin.
  erewrite emitted_app in Hin; [|simpl; rewrite Ht; by trace_norm].
  apply elem_of_app in Hin as [Hin|Hin].
  - rewrite Forall_forall in Hok. by specialize (Hok _ Hin).
  - set_unfold in Hin. destruct_or!; simplify_eq.
Qed.

Lemma share_of_missing_directory_returns_None_witness :
  let E := Samples.with_ls (Samples.env (fun _ => 100) 500)
             (Some (TransferAPIError "ClientError.NotFound" "no such directory")) in
  let w := Samples.world 200 [] in
  let '(res, w') := share E "data" "user@example.org" "app" "ep" w in
  res = inr None.
Proof.
  intros E w.
  assert (check_folder_exists E "data" "app" "ep" w =
            (inr false, (check_folder_exists E "data" "app" "ep" w).2)) as Hc
    by (vm_compute; reflexivity).
  pose proof (share_of_missing_directory_returns_None
                E "data" "user@example.org" "app" "ep" w _ Hc) as H.
  destruct (share E "data" "user@example.org" "app" "ep" w) as [res w'].
  by destruct H as (H & _).
Defined.

(** ** Endpoint lookup *)

Lemma dict_get_set (k k' v : string) (d : list (string * string)) :
  dict_get k (dict_set k' v d) =
    if String.eqb k k' then Some v else dict_get k d.
Proof.
  induction d as [|[k0 v0] d IH]; simpl.
  - reflexivity.
  - destruct (String.eqb_spec k' k0) as [->|Hne]; simpl.
    + by destruct (String.eqb k k0).
    + destruct (String.eqb_spec k k0) as [->|Hne'].
      * destruct (String.eqb_spec k0 k') as [->|_]; [done|reflexivity].
      * exact IH.
Qed.

Lemma dict_get_foldl (name : string) (eps : list Endpoint)
    (acc : list (string * string)) :
  dict_get name
    (foldl (fun d ep => dict_set (ep_display_name ep) (ep_id ep) d) acc eps)
  = match last (filter (fun ep => ep_display_name ep = name) eps) with
    | Some ep => Some (ep_id ep)
    | None => dict_get name acc
    end.
Proof.
  revert acc. induction eps as [|ep eps IH]; intros acc; simpl.
  - reflexivity.
  - rewrite IH, filter_cons. rewrite dict_get_set.
    destruct (decide (ep_display_name ep = name)) as [<-|Hne].
    + rewrite String.eqb_refl, last_cons.
      by destruct (last (filter _ eps)).
    + destruct (String.eqb_spec name (ep_display_name ep)) as [->|_];
        [done|reflexivity].
Qed.

Lemma dict_get_endpoints_of (name : string) (eps : list Endpoint) :
  dict_get name (endpoints_of eps)
  = ep_id <$> last (filter (fun ep => ep_display_name ep = name) eps).
Proof.
  unfold endpoints_of. rewrite dict_get_foldl. simpl.
  by destruct (last _).
Qed.

Lemma for_in_pure {A S} (l : list A) (f : A -> S -> S) (s : S) (w : World) :
  for_in l (fun x s' => ret (f x s')) s w
  = (inr (foldl (fun s' x => f x s') s l), w).
Proof.
  revert s. induction l as [|x l IH]; intros s; simpl; [done|].
  unfold bind, ret at 1. apply IH.
Qed.

Lemma for_in_log {A} (l : list A) (lvl : Level) (msg : A -> string)
    (w : World) :
  for_in l (fun x _ => log lvl (msg x) []) tt w
  = (inr tt,
     {| fs := fs w; stdin := stdin w; ticks := ticks w;
        trace := trace w ++ map (fun x => Ev (CLog lvl (msg x) []) None) l |}).
Proof.
  revert w. induction l as [|x l IH]; intros w; simpl.
  - unfold ret. rewrite app_nil_r. by destruct w.
  - unfold bind, log at 1. rewrite IH. simpl. by rewrite <- app_assoc.
Qed.

Lemma find_endpoints_eq (E : Env) (app_uuid : string) (w w1 : World)
    (ac : AuthClient) (tc : TransferClient) (eps : list Endpoint) :
  create_clients E app_uuid w = (inr (ac, tc), w1) ->
  search E (trace w1) tc "shared-by-me" = inr eps ->
  find_endpoints E app_uuid false w
  = (inr (endpoints_of eps),
     emit (CEndpointSearch tc "shared-by-me") None w1).
Proof.
  intros Hc Hs. unfold find_endpoints, bind at 1. rewrite Hc.
  unfold bind, endpoint_search. rewrite Hs.
  apply (for_in_pure eps
           (fun ep d => dict_set (ep_display_name ep) (ep_id ep) d)).
Qed.

Lemma find_endpoint_uuid_calls (E : Env) (app_uuid ep_name : string) :
  calls_only search_shared_by_me (find_endpoint_uuid E app_uuid ep_name).
Proof.
  unfold find_endpoint_uuid, find_endpoints.
  apply calls_only_bind; [|intros end_points].
  - apply calls_only_bind; [|intros [ac tc]].
    + eapply calls_only_mono; [|apply create_clients_calls].
      by intros [].
    + apply calls_only_bind; [auto with calls|intros eps].
      apply calls_only_for_in. auto with calls.
  - destruct (dict_mem _ _); [auto with calls|].
    repeat (apply calls_only_bind; [|intros ?]); auto with calls.
    apply calls_only_for_in. auto with calls.
Qed.

(** C10. [find_endpoint_uuid] asks the transfer service for endpoints of
    scope "shared-by-me" and for no other scope.  Once the clients are
    there and the search has answered, the result is the id of the last
    endpoint of the answer displayed under the name; when none is, the
    call logs the complaint and the names it knows, and returns [None]
    instead of raising. *)
Theorem find_endpoint_uuid_resolves_among_shared_by_me
    (E : Env) (app_uuid ep_name : string) (w : World) :
  let '(res, w') := find_endpoint_uuid E app_uuid ep_name w in
  (forall tc scope o,
     Ev (CEndpointSearch tc scope) o ∈ emitted w w' ->
     scope = "shared-by-me") /\
  (forall ac tc w1 eps,
     create_clients E app_uuid w = (inr (ac, tc), w1) ->
     search E (trace w1) tc "shared-by-me" = inr eps ->
     let named := filter (fun ep => ep_display_name ep = ep_name) eps in
     res = inr (ep_id <$> last named) /\
     (named = [] ->
      res = inr None /\
      emitted w1 w' =
        Ev (CEndpointSearch tc "shared-by-me") None
        :: Ev (CLog ERROR (ep_name +:+ " endpoint does not exists") []) None
        :: Ev (CLog ERROR "Select one of this endpoints:" []) None
        :: map (fun kv => Ev (CLog ERROR ("*** *** " +:+ kv.1) []) None)
             (endpoints_of eps))).
Proof.
  destruct (find_endpoint_uuid_calls E app_uuid ep_name w)
    as (evs & Ht & Hok).
  destruct (find_endpoint_uuid E app_uuid ep_name w) as [res w'] eqn:Heq.
  simpl in Ht. split.
  - intros tc scope o Hin. rewrite (emitted_app _ _ _ Ht) in Hin.
    rewrite Forall_forall in Hok. specialize (Hok _ Hin). simpl in Hok.
    by apply String.eqb_eq in Hok.
  - intros ac tc w1 eps Hc Hs named.
    revert Heq. unfold find_endpoint_uuid, bind at 1.
    rewrite (find_endpoints_eq E app_uuid w w1 ac tc eps Hc Hs).
    unfold dict_mem. rewrite dict_get_endpoints_of. fold named.
    destruct (last named) as [ep|] eqn:Hlast; simpl.
    + intros [= <- <-]. split; [done|]. intros Hnil.
      rewrite Hnil in Hlast. discriminate.
    + unfold bind, log at 1 2. rewrite for_in_log. unfold ret. simpl.
      intros [= <- <-]. split; [done|]. intros _. split; [done|].
      apply emitted_app. by trace_norm.
Qed.

(** ** Directory creation *)

Ltac settle :=
  repeat split; intros;
  repeat match goal with
         | H : _ /\ _ |- _ => destruct H
         | H : _ \/ _ |- _ => destruct H
         | H : exists _, _ |- _ => destruct H
         end;
  simplify_eq; try congruence; eauto 6.


(** C8, as the code has it.  Once the clients are there, the outcome of
    [create_dir] is decided by the mkdir call and by the folder link it
    logs next, which runs [create_clients] again and may raise.  If
    mkdir succeeds or raises a [TransferAPIError], and the link is
    built, the result is [True] -- so [True] does not say the directory
    was created by this call.  The result is [False] exactly when the
    [try] block raised something that is not a [TransferAPIError]: mkdir
    itself, or the link after a successful mkdir.  An exception of the
    link inside the [TransferAPIError] handler leaves the call. *)
Theorem create_dir_outcomes
    (E : Env) (directory app_uuid ep_uuid : string) (w w1 : World)
    (ac : AuthClient) (tc : TransferClient) :
  create_clients E app_uuid w = (inr (ac, tc), w1) ->
  let dir_path := "/" +:+ directory +:+ "/" in
  let err := mkdir_error E (trace w1) tc ep_uuid dir_path in
  let note :=
    match err with
    | None => CLog INFO ("*** Created folder: " +:+ dir_path) []
    | Some e => CLog WARNING ("Transfer API Error: " +:+ exn_code e +:+ " - "
                              +:+ exn_message e) []
    end in
  let link :=
    create_folder_link E directory app_uuid ep_uuid
      (emit note None (emit (CMkdir tc ep_uuid dir_path) err w1)) in
  let '(res, w') := create_dir E directory app_uuid ep_uuid w in
  ((err = None \/ exists c m, err = Some (TransferAPIError c m)) ->
   (exists url, link.1 = inr url) -> res = inr true) /\
  (res = inr false <->
   exists e, is_TransferAPIError e = false /\
             (err = Some e \/ (err = None /\ link.1 = inl e))) /\
  (forall c m e, err = Some (TransferAPIError c m) -> link.1 = inl e ->
     res = inl e).
Proof.
  intros Hc dir_path err note link.
  unfold create_dir, bind at 1. rewrite Hc. fold dir_path.
  unfold try_except, bind at 1, operation_mkdir at 1. fold err.
  subst link note. destruct err as [e|] eqn:Herr.
  - destruct (is_TransferAPIError e) eqn:Hte.
    + unfold bind at 1, log at 1.
      unfold bind at 1.
      destruct (create_folder_link E directory app_uuid ep_uuid _)
        as [[e'|url] w2]; simpl; settle.
    + unfold bind, log, ret. simpl. settle.
  - unfold bind at 1, log at 1. unfold bind at 1.
    destruct (create_folder_link E directory app_uuid ep_uuid _)
      as [[e'|url] w2]; simpl.
    + destruct (is_TransferAPIError e') eqn:Hte.
      * unfold bind at 1, log at 1. unfold bind at 1.
        destruct (create_folder_link E directory app_uuid ep_uuid _)
          as [[e2|url] w3]; simpl; settle.
      * unfold bind, log, ret. simpl. settle.
    + unfold bind, log, ret. simpl. settle.
Qed.

Lemma create_dir_outcomes_witness :
  let E := Samples.with_mkdir (Samples.env (fun _ => 100) 500)
             (Some (TransferAPIError "ExternalError.MkdirFailed.Exists"
                      "Path already exists")) in
  let w := Samples.world 200 [] in
  let '(res, w') := create_dir E "data" "app" "ep" w in
  res = inr true.
Proof.
  intros E w.
  assert (create_clients E "app" w =
            (inr (Samples.auth_client_of "app" 200,
                  Samples.transfer_client_of "app" 200),
             (create_clients E "app" w).2)) as Hc
    by (vm_compute; reflexivity).
  pose proof (create_dir_outcomes E "data" "app" "ep" w _ _ _ Hc) as H.
  cbv zeta in H.
  destruct (create_dir E "data" "app" "ep" w) as [res w'].
  destruct H as (H & _). apply H.
  - right. by eexists _, _.
  - eexists. vm_compute. reflexivity.
Defined.

(** C8 as stated fails when the token runs out between the two
    [create_clients] calls of one [create_dir]: with a closed console,
    mkdir succeeds and the call still answers [False]; and when mkdir
    raises a [TransferAPIError], the call answers nothing but raises
    [EOFError]. *)
Lemma create_dir_not_true_despite_mkdir :
  let E := Samples.env (Samples.jumping_clock 2 100 300) 500 in
  let E' := Samples.with_mkdir E
              (Some (TransferAPIError "ExternalError.MkdirFailed.Exists"
                       "Path already exists")) in
  let w := Samples.world 200 [] in
  ((create_dir E "data" "app" "ep" w).1 = inr false /\
   Ev (CMkdir (Samples.transfer_client_of "app" 200) "ep" "/data/") None
     ∈ trace (create_dir E "data" "app" "ep" w).2) /\
  ((create_dir E' "data" "app" "ep" w).1 = inl EOFError /\
   Ev (CMkdir (Samples.transfer_client_of "app" 200) "ep" "/data/")
      (Some (TransferAPIError "ExternalError.MkdirFailed.Exists"
               "Path already exists"))
     ∈ trace (create_dir E' "data" "app" "ep" w).2).
Proof.
  split; split.
  - vm_compute. reflexivity.
  - vm_compute. do 4 apply list_elem_of_further. apply list_elem_of_here.
  - vm_compute. reflexivity.
  - vm_compute. do 4 apply list_elem_of_further. apply list_elem_of_here.
Qed.

(** ** The functions at work on sample worlds *)

Example strip_spaces : strip "   4/0Ab-cd  " = "4/0Ab-cd".
Proof. reflexivity. Qed.

Example token_file_in_home :
  globus_token_file (Samples.env (fun _ => 0) 0) = Samples.token_path.
Proof. reflexivity. Qed.

(** First run: no file, the code typed is stripped and exchanged, the
    new record is stored and, being valid, returned. *)
Example first_run_creates_the_file :
  let E := Samples.env (fun _ => 100) 500 in
  let w := Samples.fresh_world [" 4/0Ab-cd "; "next"] in
  let '(res, w') := refresh_globus_token E "app" w in
  res = inr (Samples.record 500) /\
  fs w' !! Samples.token_path = Some (Npy (Samples.record 500)) /\
  stdin w' = ["next"] /\
  trace w' =
    [Ev (CLoad Samples.token_path) (Some FileNotFoundError);
     Ev (CLog ERROR "Globus token is missing. Creating one" []) None;
     url_event E "app";
     Ev (CInput code_prompt) None;
     Ev (CExchange "app" "4/0Ab-cd") None;
     Ev (CSave Samples.token_path (Samples.record 500)) None;
     Ev CTime None].
Proof. vm_compute. repeat split. Qed.

(** A corrupt file is not treated as a missing one. *)
Example corrupt_file_ends_the_call :
  let E := Samples.env (fun _ => 100) 500 in
  let w := Samples.world_with Garbage ["code"] in
  let '(res, w') := refresh_globus_token E "app" w in
  res = inl UnpicklingError /\ fs w' = fs w /\ stdin w' = ["code"].
Proof. vm_compute. repeat split. Qed.

(** A refused code leaves the expired record in the file. *)
Example refused_code_ends_the_call :
  let E := Samples.with_exchange (Samples.env (fun _ => 100) 500)
             (inl (AuthAPIError "invalid_grant")) in
  let w := Samples.world 50 ["code"] in
  let '(res, w') := refresh_globus_token E "app" w in
  res = inl (AuthAPIError "invalid_grant") /\ fs w' = fs w /\ stdin w' = [].
Proof. vm_compute. repeat split. Qed.

(** Two shared endpoints of one name: the later one is found. *)
Example later_endpoint_of_a_name_wins :
  let eps := [ {| ep_id := "id-1"; ep_display_name := "beamline" |};
               {| ep_id := "id-2"; ep_display_name := "archive" |};
               {| ep_id := "id-3"; ep_display_name := "beamline" |} ] in
  let E := Samples.with_search (Samples.env (fun _ => 100) 500) eps in
  let w := Samples.world 200 [] in
  (find_endpoint_uuid E "app" "beamline" w).1 = inr (Some "id-3") /\
  (find_endpoint_uuid E "app" "archive" w).1 = inr (Some "id-2") /\
  (find_endpoint_uuid E "app" "elsewhere" w).1 = inr None /\
  endpoints_of eps = [("beamline", "id-3"); ("archive", "id-2")].
Proof. vm_compute. repeat split. Qed.

(** * Further properties of the module *)

#[local] Set Warnings "-clear-no-such-hyp".

(** ** More on the token lifecycle *)

Lemma refresh_leaves_record_in_file (E : Env) (app_uuid : string) (w : World) :
  let '(res, w') := refresh_globus_token E app_uuid w in
  forall x, res = inr x -> fs w' !! globus_token_file E = Some (Npy x).
Proof.
  start_refresh E app_uuid w res w'. intros x ->.
  invert_runs; simpl in *; rewrite ?lookup_insert_eq; done.
Qed.

(** X1. Save and load agree with what is handed out: when a call
    returns a record, the credential file holds exactly that record, so
    loading the file in the resulting world gives the returned record
    back. *)
Theorem returned_record_can_be_loaded_back
    (E : Env) (app_uuid : string) (w : World) :
  let '(res, w') := refresh_globus_token E app_uuid w in
  forall x, res = inr x ->
    fs w' !! globus_token_file E = Some (Npy x) /\
    (np_load (globus_token_file E) w').1 = inr x.
Proof.
  pose proof (refresh_leaves_record_in_file E app_uuid w) as H.
  destruct (refresh_globus_token E app_uuid w) as [res w'].
  intros x Hx. specialize (H x Hx). split; [done|].
  unfold np_load. by rewrite H.
Qed.

Lemma refresh_no_transfer_eq (E : Env) (app_uuid : string) (w : World)
    (r : TokenResponse) :
  fs w !! globus_token_file E = Some (Npy r) ->
  by_resource_server r !! transfer_server = None ->
  refresh_globus_token E app_uuid w =
    (inl (KeyError transfer_server), emit (CLoad (globus_token_file E)) None w).
Proof.
  intros Hf Hd.
  unfold refresh_globus_token, bind, try_except, np_load, getitem, raise.
  by rewrite Hf, Hd.
Qed.

(** X2. A stored record without an entry for the transfer service is a
    dead end: the call raises [KeyError] right after the load, without
    reading the clock, prompting or writing, and so does
    [create_clients]; the world is left with the same file, so every
    later call ends the same way. *)
Theorem stored_record_without_transfer_entry
    (E : Env) (app_uuid : string) (w : World) (r : TokenResponse) :
  fs w !! globus_token_file E = Some (Npy r) ->
  by_resource_server r !! transfer_server = None ->
  let '(res, w') := refresh_globus_token E app_uuid w in
  res = inl (KeyError transfer_server) /\
  emitted w w' = [Ev (CLoad (globus_token_file E)) None] /\
  fs w' = fs w /\ stdin w' = stdin w /\ ticks w' = ticks w /\
  create_clients E app_uuid w = (inl (KeyError transfer_server), w') /\
  (refresh_globus_token E app_uuid w').1 = inl (KeyError transfer_server).
Proof.
  intros Hf Hd.
  pose proof (refresh_no_transfer_eq E app_uuid w r Hf Hd) as Heq.
  unfold create_clients, bind at 1. rewrite Heq.
  repeat split; try done.
  - by apply emitted_app.
  - by rewrite (refresh_no_transfer_eq E app_uuid
                  (emit (CLoad (globus_token_file E)) None w) r Hf Hd).
Qed.

Lemma stored_record_without_transfer_entry_witness :
  let E := Samples.env (fun _ => 100) 500 in
  let w := Samples.world_with (Npy MoreSamples.auth_only_record) ["code"] in
  let '(res, w') := refresh_globus_token E "app" w in
  res = inl (KeyError transfer_server) /\ stdin w' = ["code"].
Proof.
  intros E w.
  pose proof (stored_record_without_transfer_entry E "app" w
                MoreSamples.auth_only_record) as H.
  destruct (refresh_globus_token E "app" w) as [res w'].
  destruct H as (H1 & _ & _ & H4 & _).
  - vm_compute. reflexivity.
  - vm_compute. reflexivity.
  - by split.
Defined.

(** X3. On a first run the exchanged record is saved before it is
    looked at: if the service answers with a record that has no entry
    for the transfer service, the call raises [KeyError] with that
    record already in the credential file, and the next call raises
    [KeyError] again without prompting. *)
Theorem first_run_saves_before_it_looks
    (E : Env) (app_uuid : string) (w : World)
    (line : string) (rest : list string) (x : TokenResponse) :
  fs w !! globus_token_file E = None ->
  stdin w = line :: rest ->
  (forall h, exchange_code_for_tokens E h app_uuid (strip line) = inr x) ->
  (forall h, save_error E h (globus_token_file E) = None) ->
  by_resource_server x !! transfer_server = None ->
  let '(res, w') := refresh_globus_token E app_uuid w in
  res = inl (KeyError transfer_server) /\
  fs w' = <[globus_token_file E := Npy x]> (fs w) /\
  stdin w' = rest /\
  let '(res2, w2) := refresh_globus_token E app_uuid w' in
  res2 = inl (KeyError transfer_server) /\ stdin w2 = rest /\ fs w2 = fs w'.
Proof.
  intros Hf Hin Hx Hs Hd.
  assert (refresh_globus_token E app_uuid w =
            (inl (KeyError transfer_server),
             (create_new_token E app_uuid
                (emit (CLog ERROR "Globus token is missing. Creating one" [])
                   None
                   (emit (CLoad (globus_token_file E))
                      (Some FileNotFoundError) w))).2) /\
          (create_new_token E app_uuid
             (emit (CLog ERROR "Globus token is missing. Creating one" [])
                None
                (emit (CLoad (globus_token_file E))
                   (Some FileNotFoundError) w))).1 = inr x) as [Heq Hnew].
  { unfold refresh_globus_token, bind at 1, try_except, np_load.
    rewrite Hf. simpl. unfold bind at 1, log at 1.
    pose proof (create_new_token_run E app_uuid
      (emit (CLog ERROR "Globus token is missing. Creating one" []) None
         (emit (CLoad (globus_token_file E)) (Some FileNotFoundError) w)))
      as Hrun.
    destruct (create_new_token E app_uuid _) as [res1 w1].
    inversion Hrun as [Hin'|l r e Hin' Hx'|l r y e Hin' Hx' Hs'
                      |l r y Hin' Hx' Hs']; subst; simpl in Hin';
      rewrite Hin in Hin'; try discriminate;
      injection Hin' as <- <-.
    - rewrite Hx in Hx'. discriminate.
    - rewrite Hs in Hs'. discriminate.
    - rewrite Hx in Hx'. injection Hx' as <-.
      unfold getitem, bind, raise. by rewrite Hd. }
  rewrite Heq.
  pose proof (create_new_token_run E app_uuid
    (emit (CLog ERROR "Globus token is missing. Creating one" []) None
       (emit (CLoad (globus_token_file E)) (Some FileNotFoundError) w)))
    as Hrun.
  destruct (create_new_token E app_uuid _) as [res1 w1]. simpl in *. subst.
  inversion Hrun as [| | |l r y Hin' Hx' Hs']; subst; simpl in *.
  rewrite Hin in Hin'. injection Hin' as <- <-.
  repeat split.
  rewrite (refresh_no_transfer_eq E app_uuid _ x); [done| |done].
  simpl. by rewrite lookup_insert_eq.
Qed.

Lemma first_run_saves_before_it_looks_witness :
  let E := Samples.with_exchange (Samples.env (fun _ => 100) 500)
             (inr MoreSamples.auth_only_record) in
  let w := Samples.fresh_world ["code"; "more"] in
  let '(res, w') := refresh_globus_token E "app" w in
  res = inl (KeyError transfer_server) /\
  fs w' !! Samples.token_path = Some (Npy MoreSamples.auth_only_record).
Proof.
  intros E w.
  pose proof (first_run_saves_before_it_looks E "app" w "code" ["more"]
                MoreSamples.auth_only_record) as H.
  destruct (refresh_globus_token E "app" w) as [res w'].
  destruct H as (H1 & H2 & _).
  - vm_compute. reflexivity.
  - reflexivity.
  - reflexivity.
  - reflexivity.
  - vm_compute. reflexivity.
  - split; [done|]. rewrite H2. apply lookup_insert_eq.
Defined.

(** X4. One call is a bounded conversation: it reads the clock at most
    once, takes at most two lines from the console (the console keeps
    the rest in order), asks the auth service exactly once for each line
    it took, and saves no more often than that. *)
Theorem refresh_is_a_bounded_conversation
    (E : Env) (app_uuid : string) (w : World) :
  let '(res, w') := refresh_globus_token E app_uuid w in
  exists used,
    stdin w = used ++ stdin w' /\
    (length used <= 2)%nat /\
    count_calls is_exchange_call (emitted w w') = length used /\
    (count_calls is_save_call (emitted w w') <= length used)%nat /\
    (count_calls is_time_call (emitted w w') <= 1)%nat /\
    ticks w' = (ticks w + count_calls is_time_call (emitted w w'))%nat.
Proof.
  start_refresh E app_uuid w res w'.
  invert_runs; simpl in *; solve_emitted; unfold url_event; simpl;
    repeat match goal with
           | H : stdin _ = _ |- _ => rewrite H; clear H
           | H : @eq (list string) _ _ |- _ => rewrite H; clear H
           end.
  all: first
    [ exists []; simpl; repeat split; (done || lia)
    | eexists [_]; simpl; repeat split; (done || lia)
    | eexists [_; _]; simpl; repeat split; (done || lia) ].
Qed.

(** X5. What one call hands out, the next call reuses: if a call
    returned a record with a transfer entry whose remaining life at the
    next clock reading is not negative, a second call in the resulting
    world returns the same record, touching neither console nor file. *)
Theorem next_call_reuses_the_returned_record
    (E : Env) (app_uuid : string) (w : World) :
  let '(res, w') := refresh_globus_token E app_uuid w in
  forall x d,
    res = inr x ->
    by_resource_server x !! transfer_server = Some d ->
    0 <= life d (clock E (ticks w')) ->
    let '(res2, w2) := refresh_globus_token E app_uuid w' in
    res2 = inr x /\ fs w2 = fs w' /\ stdin w2 = stdin w' /\
    emitted w' w2 = [Ev (CLoad (globus_token_file E)) None; Ev CTime None].
Proof.
  pose proof (refresh_leaves_record_in_file E app_uuid w) as H.
  destruct (refresh_globus_token E app_uuid w) as [res w'].
  intros x d Hx Hd Hl. specialize (H x Hx).
  rewrite (refresh_reuse_eq E app_uuid w' x d H Hd Hl).
  repeat split. by apply emitted_app.
Qed.

(** ** The authorization code is sent stripped *)

Lemma lstrip_cases (s : string) :
  lstrip s = EmptyString \/
  exists a r, lstrip s = String a r /\ is_space a = false.
Proof.
  induction s as [|a s IH]; simpl; [by left|].
  destruct (is_space a) eqn:Ha; [exact IH|]. right. by exists a, s.
Qed.

Lemma rstrip_rstrip (s : string) : rstrip (rstrip s) = rstrip s.
Proof.
  induction s as [|a s IH]; simpl; [done|].
  destruct (rstrip s) as [|b r] eqn:Hr.
  - destruct (is_space a) eqn:Ha; simpl; [done|]. by rewrite Ha.
  - change (rstrip (String a (String b r)) = String a (String b r)).
    change (rstrip (String a (String b r)))
      with (match rstrip (String b r) with
            | EmptyString =>
                if is_space a then EmptyString else String a EmptyString
            | String c r' => String a (String c r')
            end).
    by rewrite IH.
Qed.

Lemma rstrip_keeps_head (a : Ascii.ascii) (r : string) :
  is_space a = false -> exists r', rstrip (String a r) = String a r'.
Proof.
  intros Ha. simpl. destruct (rstrip r); [rewrite Ha|]; by eexists.
Qed.

Lemma strip_strip (s : string) : strip (strip s) = strip s.
Proof.
  unfold strip. destruct (lstrip_cases s) as [->|(a & r & -> & Ha)].
  - reflexivity.
  - destruct (rstrip_keeps_head a r Ha) as [r' Hr'].
    assert (lstrip (rstrip (String a r)) = rstrip (String a r)) as ->.
    { rewrite Hr'. simpl. by rewrite Ha. }
    apply rstrip_rstrip.
Qed.

(** X6. Whatever is typed at the prompt, the code the call sends to the
    auth service is for the given application and is already stripped:
    stripping it again changes nothing. *)
Theorem exchanged_code_is_stripped
    (E : Env) (app_uuid : string) (w : World) :
  let '(res, w') := refresh_globus_token E app_uuid w in
  forall app code o,
    Ev (CExchange app code) o ∈ emitted w w' ->
    app = app_uuid /\ strip code = code.
Proof.
  start_refresh E app_uuid w res w'.
  invert_runs; simpl in *; solve_emitted; simpl.
  all: intros app code o Hin; unfold url_event in Hin; set_unfold in Hin;
    destruct_or?; simplify_eq; try done; split; try done;
    apply strip_strip.
Qed.

(** ** The clients *)

(** X7. The clients [create_clients] returns are built from the record
    that is in the credential file when it returns: both share one
    authorizer, made for the given application with refresh tokens on,
    holding the refresh token, the access token and the expiry of that
    record's transfer entry. *)
Theorem clients_carry_the_stored_tokens
    (E : Env) (app_uuid : string) (w w' : World)
    (ac : AuthClient) (tc : TransferClient) :
  create_clients E app_uuid w = (inr (ac, tc), w') ->
  exists r d,
    fs w' !! globus_token_file E = Some (Npy r) /\
    by_resource_server r !! transfer_server = Some d /\
    ac_authorizer ac = tc_authorizer tc /\
    tc_authorizer tc =
      {| auth_refresh_token := refresh_token d;
         auth_client := {| client_id := app_uuid;
                           flow_refresh_tokens := true |};
         auth_access_token := access_token d;
         auth_expires_at := expires_at_seconds d |}.
Proof.
  pose proof (refresh_leaves_record_in_file E app_uuid w) as Hfile.
  unfold create_clients, bind at 1.
  destruct (refresh_globus_token E app_uuid w) as [[e|r] w1]; [done|].
  specialize (Hfile r eq_refl).
  unfold getitem, bind, raise, ret, time_time, log, emit.
  destruct (by_resource_server r !! transfer_server) as [d|] eqn:Hd; [|done].
  simpl. intros [= <- <- <-]. by exists r, d.
Qed.

Lemma clients_carry_the_stored_tokens_witness :
  let E := Samples.env (fun _ => 100) 500 in
  let w := Samples.world 50 [" code "] in
  exists r d,
    fs (create_clients E "app" w).2 !! globus_token_file E = Some (Npy r) /\
    by_resource_server r !! transfer_server = Some d /\
    expires_at_seconds d = 500%Z.
Proof.
  intros E w.
  assert (create_clients E "app" w =
            (inr (Samples.auth_client_of "app" 500,
                  Samples.transfer_client_of "app" 500),
             (create_clients E "app" w).2)) as Hc
    by (vm_compute; reflexivity).
  destruct (clients_carry_the_stored_tokens E "app" w _ _ _ Hc)
    as (r & d & Hf & Hd & _ & Ha).
  exists r, d. repeat split; try done.
  by injection Ha as _ _ <-.
Defined.

Lemma create_folder_link_calls E directory app_uuid ep_uuid :
  calls_only lifecycle_call (create_folder_link E directory app_uuid ep_uuid).
Proof.
  unfold create_folder_link.
  apply calls_only_bind; [apply create_clients_calls|intros ?].
  auto with calls.
Qed.

(** X8. [create_folder_link] builds its URL from the endpoint and the
    directory alone, but it is not a pure function: it runs the token
    lifecycle first, so it can prompt, write the credential file and
    raise.  It never contacts the transfer or the identity service. *)
Theorem create_folder_link_runs_the_lifecycle
    (E : Env) (directory app_uuid ep_uuid : string) (w : World) :
  let '(res, w') := create_folder_link E directory app_uuid ep_uuid w in
  w' = (create_clients E app_uuid w).2 /\
  (forall e, res = inl e <-> (create_clients E app_uuid w).1 = inl e) /\
  (forall url, res = inr url ->
     url = "https://app.globus.org/file-manager?&origin_id=" +:+ ep_uuid
           +:+ "&origin_path=/" +:+ directory) /\
  Forall (fun ev => lifecycle_call (ev_call ev) = true) (emitted w w').
Proof.
  destruct (create_folder_link_calls E directory app_uuid ep_uuid w)
    as (evs & Ht & Hok).
  revert Ht. unfold create_folder_link, bind, ret.
  destruct (create_clients E app_uuid w) as [[e|[ac tc]] w1]; simpl;
    intros Ht; rewrite (emitted_app _ _ _ Ht);
    repeat split; try done; congruence.
Qed.

(** X9. A failure of the token lifecycle is nobody's to handle: when
    [create_clients] raises, every wrapper raises the same exception in
    the same world, before any call to the transfer or identity service.
    The bare [except] of [create_dir] and of [share] does not cover
    it. *)
Theorem lifecycle_failure_leaves_every_wrapper
    (E : Env)
    (ls_data : list Event -> TransferClient -> string -> string
               -> list DirEntry)
    (get_tlsftp_server : TransferClient -> string -> M string)
    (directory email app_uuid ep_uuid ep_name : string) (show : bool)
    (w w1 : World) (e : exn) :
  create_clients E app_uuid w = (inl e, w1) ->
  create_folder_link E directory app_uuid ep_uuid w = (inl e, w1) /\
  create_dir E directory app_uuid ep_uuid w = (inl e, w1) /\
  check_folder_exists E directory app_uuid ep_uuid w = (inl e, w1) /\
  get_user_id E app_uuid email w = (inl e, w1) /\
  share E directory email app_uuid ep_uuid w = (inl e, w1) /\
  find_endpoints E app_uuid show w = (inl e, w1) /\
  find_endpoint_uuid E app_uuid ep_name w = (inl e, w1) /\
  find_files E ls_data directory app_uuid ep_uuid w = (inl e, w1) /\
  create_links E ls_data get_tlsftp_server directory app_uuid ep_uuid w
    = (inl e, w1).
Proof.
  intros Hc.
  assert (check_folder_exists E directory app_uuid ep_uuid w = (inl e, w1))
    as Hcheck by (unfold check_folder_exists, bind; by rewrite Hc).
  assert (find_endpoints E app_uuid show w = (inl e, w1))
    as Hfind by (unfold find_endpoints, bind; by rewrite Hc).
  repeat split; try done.
  - unfold create_folder_link, bind. by rewrite Hc.
  - unfold create_dir, bind. by rewrite Hc.
  - unfold get_user_id, bind. by rewrite Hc.
  - unfold share, bind at 1. by rewrite Hcheck.
  - unfold find_endpoint_uuid, bind at 1.
    destruct show; [|by rewrite Hfind].
    unfold find_endpoints, bind at 1. by rewrite Hc.
  - unfold find_files, bind. by rewrite Hc.
  - unfold create_links, bind. by rewrite Hc.
Qed.

Lemma lifecycle_failure_leaves_every_wrapper_witness :
  let E := Samples.env (fun _ => 100) 500 in
  let w := Samples.world_with Garbage ["code"] in
  (create_dir E "data" "app" "ep" w).1 = inl UnpicklingError /\
  (share E "data" "user@example.org" "app" "ep" w).1 = inl UnpicklingError.
Proof.
  intros E w.
  assert (create_clients E "app" w
          = (inl UnpicklingError, (create_clients E "app" w).2)) as Hc
    by (vm_compute; reflexivity).
  destruct (lifecycle_failure_leaves_every_wrapper E MoreSamples.ls_data
              MoreSamples.get_tlsftp_server "data" "user@example.org"
              "app" "ep" "beamline" false w _ _ Hc)
    as (_ & H2 & _ & _ & H5 & _).
  by rewrite H2, H5.
Defined.

(** ** Identities and sharing *)

(** X10. Once the clients are there, [get_user_id] makes one identity
    lookup for the email and returns the id of the first identity of the
    answer; an empty answer is an [IndexError], and an exception of the
    lookup is the exception of the call. *)
Theorem get_user_id_takes_the_first_identity
    (E : Env) (app_uuid email : string) (w w1 : World)
    (ac : AuthClient) (tc : TransferClient) :
  create_clients E app_uuid w = (inr (ac, tc), w1) ->
  let answer := identities E (trace w1) ac email in
  let '(res, w') := get_user_id E app_uuid email w in
  res = match answer with
        | inl e => inl e
        | inr [] => inl IndexError
        | inr (user_id :: _) => inr user_id
        end /\
  emitted w1 w' =
    [Ev (CGetIdentities ac email)
        match answer with inl e => Some e | inr _ => None end] /\
  fs w' = fs w1 /\ stdin w' = stdin w1.
Proof.
  intros Hc answer. unfold get_user_id, bind at 1. rewrite Hc.
  unfold bind, get_identities. fold answer.
  destruct answer as [e|[|user_id ids]]; simpl;
    repeat split; by apply emitted_app.
Qed.

Lemma get_user_id_takes_the_first_identity_witness :
  let E := MoreSamples.with_identities (Samples.env (fun _ => 100) 500)
             (inr []) in
  let w := Samples.world 200 [] in
  let '(res, w') := get_user_id E "app" "user@example.org" w in
  res = inl IndexError.
Proof.
  intros E w.
  assert (create_clients E "app" w =
            (inr (Samples.auth_client_of "app" 200,
                  Samples.transfer_client_of "app" 200),
             (create_clients E "app" w).2)) as Hc
    by (vm_compute; reflexivity).
  pose proof (get_user_id_takes_the_first_identity
                E "app" "user@example.org" w _ _ _ Hc) as H.
  cbv zeta in H.
  destruct (get_user_id E "app" "user@example.org" w) as [res w'].
  by destruct H as (H & _).
Defined.

(** X11. Once the directory is found, the clients are there and the
    user id is known, [share] submits one rule and always answers with
    a boolean, never with an exception: [True] if the rule is accepted
    and the folder link can be built, [False] if the rule is refused
    with whatever exception -- and also [False] if the rule was
    accepted but building the link raised. *)
Theorem share_answers_with_a_boolean
    (E : Env) (directory email app_uuid ep_uuid user_id : string)
    (w w1 w2 w3 : World) (ac : AuthClient) (tc : TransferClient) :
  check_folder_exists E directory app_uuid ep_uuid w = (inr true, w1) ->
  create_clients E app_uuid w1 = (inr (ac, tc), w2) ->
  get_user_id E app_uuid email w2 = (inr user_id, w3) ->
  let dir_path := "/" +:+ directory +:+ "/" in
  let rule :=
    {| DATA_TYPE := "access"; principal_type := "identity";
       principal := user_id; rule_path := dir_path; permissions := "r";
       notify_email := email;
       notify_message := "add here a custom meassage" |} in
  let err := acl_error E (trace w3) tc ep_uuid rule in
  let link :=
    create_folder_link E directory app_uuid ep_uuid
      (emit (CLog INFO ("*** Path " +:+ dir_path +:+ " has been shared with "
                        +:+ email) []) None
         (emit (CAddAcl tc ep_uuid rule) None w3)) in
  let '(res, w') := share E directory email app_uuid ep_uuid w in
  (exists b, res = inr (Some b)) /\
  (res = inr (Some true) <-> err = None /\ exists url, link.1 = inr url) /\
  (exists rest, emitted w3 w' = Ev (CAddAcl tc ep_uuid rule) err :: rest).
Proof.
  intros Hcheck Hc Hid dir_path rule err link.
  unfold share, bind at 1. rewrite Hcheck.
  unfold bind at 1. rewrite Hc. unfold bind at 1. rewrite Hid.
  fold dir_path. fold rule.
  unfold try_except, bind at 1, add_endpoint_acl_rule at 1. fold err.
  subst link. destruct err as [e|] eqn:Herr.
  - destruct (is_TransferAPIError e); unfold bind, log, ret; simpl.
    all: split; [by eexists|]; split;
      [split; [done|by intros [[=] _]]|].
    all: eexists; apply emitted_app; by trace_norm.
  - unfold bind at 1, log at 1. unfold bind at 1.
    pose proof (create_folder_link_calls E directory app_uuid ep_uuid
      (emit (CLog INFO ("*** Path " +:+ dir_path +:+ " has been shared with "
                        +:+ email) []) None
         (emit (CAddAcl tc ep_uuid rule) None w3))) as (evs & Ht & _).
    destruct (create_folder_link E directory app_uuid ep_uuid _)
      as [[e'|url] w4]; simpl in *.
    + destruct (is_TransferAPIError e'); unfold bind, log, ret; simpl.
      all: split; [by eexists|]; split;
        [split; [done|by intros [_ [url [=]]]]|].
      all: eexists; apply emitted_app; simpl; rewrite Ht; by trace_norm.
    + unfold bind, log, ret; simpl.
      split; [by eexists|]. split; [split; [|done]; by eauto|].
      eexists. apply emitted_app. simpl. rewrite Ht. by trace_norm.
Qed.

Lemma share_answers_with_a_boolean_witness :
  let E := MoreSamples.with_acl (Samples.env (fun _ => 100) 500)
             (Some (TransferAPIError "Exists" "rule already there")) in
  let w := Samples.world 200 [] in
  let '(res, w') := share E "data" "user@example.org" "app" "ep" w in
  res = inr (Some false).
Proof.
  intros E w.
  set (w1 := (check_folder_exists E "data" "app" "ep" w).2).
  set (w2 := (create_clients E "app" w1).2).
  set (w3 := (get_user_id E "app" "user@example.org" w2).2).
  assert (check_folder_exists E "data" "app" "ep" w = (inr true, w1)) as H1
    by (vm_compute; reflexivity).
  assert (create_clients E "app" w1 =
            (inr (Samples.auth_client_of "app" 200,
                  Samples.transfer_client_of "app" 200), w2)) as H2
    by (vm_compute; reflexivity).
  assert (get_user_id E "app" "user@example.org" w2 = (inr "user-id", w3))
    as H3 by (vm_compute; reflexivity).
  pose proof (share_answers_with_a_boolean E "data" "user@example.org"
                "app" "ep" "user-id" w w1 w2 w3 _ _ H1 H2 H3) as H.
  cbv zeta in H.
  destruct (share E "data" "user@example.org" "app" "ep" w) as [res w'].
  destruct H as ([b Hb] & Htrue & _). subst res.
  destruct b; [|done].
  destruct Htrue as [Htrue _]. by destruct (Htrue eq_refl) as [[=] _].
Defined.

(** ** What [share] and [create_dir] ask of the service *)

Lemma calls_only_operation_mkdir E ok tc ep path :
  ok (CMkdir tc ep path) = true -> calls_only ok (operation_mkdir E tc ep path).
Proof. intros H. unfold operation_mkdir, emit. one_call. Qed.

Lemma calls_only_get_identities E ok ac usernames :
  ok (CGetIdentities ac usernames) = true ->
  calls_only ok (get_identities E ac usernames).
Proof. intros H. unfold get_identities, emit. one_call. Qed.

Lemma calls_only_add_acl E ok tc ep rule :
  ok (CAddAcl tc ep rule) = true ->
  calls_only ok (add_endpoint_acl_rule E tc ep rule).
Proof. intros H. unfold add_endpoint_acl_rule, emit. one_call. Qed.

Lemma calls_only_lifecycle {A} (ok : Call -> bool) (m : M A) :
  (forall c, lifecycle_call c = true -> ok c = true) ->
  calls_only lifecycle_call m -> calls_only ok m.
Proof. apply calls_only_mono. Qed.

Lemma create_dir_calls E directory app_uuid ep_uuid :
  calls_only (create_dir_call directory ep_uuid)
    (create_dir E directory app_uuid ep_uuid).
Proof.
  assert (forall c, lifecycle_call c = true ->
                    create_dir_call directory ep_uuid c = true) as Hsub
    by (intros c Hc; unfold create_dir_call; by rewrite Hc).
  assert (calls_only (create_dir_call directory ep_uuid)
            (create_folder_link E directory app_uuid ep_uuid)) as Hlink
    by (eapply calls_only_lifecycle; [done|apply create_folder_link_calls]).
  assert (forall lvl msg, calls_only (create_dir_call directory ep_uuid)
                            (log lvl msg [])) as Hlog
    by (intros; by apply calls_only_log).
  unfold create_dir.
  apply calls_only_bind; [|intros [ac tc]].
  - eapply calls_only_lifecycle; [done|apply create_clients_calls].
  - apply calls_only_try_except.
    + apply calls_only_bind; [|intros _].
      * apply calls_only_operation_mkdir. unfold create_dir_call. simpl.
        by rewrite !String.eqb_refl.
      * apply calls_only_bind; [apply Hlog|intros _].
        apply calls_only_bind; [apply Hlink|intros url].
        apply calls_only_bind; [apply Hlog|intros _].
        apply calls_only_ret.
    + intros e h. destruct (is_TransferAPIError e); intros [= <-].
      * apply calls_only_bind; [apply Hlog|intros _].
        apply calls_only_bind; [apply Hlink|intros url].
        apply calls_only_bind; [apply Hlog|intros _].
        apply calls_only_ret.
      * apply calls_only_bind; [apply Hlog|intros _].
        apply calls_only_ret.
Qed.

(** X12. All [create_dir] ever asks of the transfer service is to make
    ['/' + directory + '/'] on the given endpoint: every mkdir of a call
    is for that path and endpoint, and the call makes no listing, no
    identity lookup, no access rule and no endpoint search. *)
Theorem create_dir_only_makes_its_directory
    (E : Env) (directory app_uuid ep_uuid : string) (w : World) :
  let '(res, w') := create_dir E directory app_uuid ep_uuid w in
  forall c o, Ev c o ∈ emitted w w' ->
    match c with
    | CMkdir _ ep path => ep = ep_uuid /\ path = "/" +:+ directory +:+ "/"
    | CLs _ _ _ | CGetIdentities _ _ | CAddAcl _ _ _
    | CEndpointSearch _ _ => False
    | _ => True
    end.
Proof.
  destruct (create_dir_calls E directory app_uuid ep_uuid w)
    as (evs & Ht & Hok).
  destruct (create_dir E directory app_uuid ep_uuid w) as [res w'].
  simpl in Ht. rewrite (emitted_app _ _ _ Ht).
  intros c o Hin. rewrite Forall_forall in Hok.
  specialize (Hok _ Hin). unfold create_dir_call in Hok. simpl in Hok.
  destruct c; simpl in Hok; try done.
  apply andb_prop in Hok as [H1 H2].
  by apply String.eqb_eq in H1, H2.
Qed.

Lemma share_calls E directory email app_uuid ep_uuid :
  calls_only (share_call directory email ep_uuid)
    (share E directory email app_uuid ep_uuid).
Proof.
  assert (forall c, lifecycle_call c = true ->
                    share_call directory email ep_uuid c = true) as Hsub
    by (intros c Hc; unfold share_call; by rewrite Hc).
  assert (forall A (m : M A), calls_only lifecycle_call m ->
            calls_only (share_call directory email ep_uuid) m) as Hlife
    by (intros A m; by apply calls_only_lifecycle).
  assert (forall lvl msg, calls_only (share_call directory email ep_uuid)
                            (log lvl msg [])) as Hlog
    by (intros; by apply calls_only_log).
  unfold share.
  apply calls_only_bind; [|intros found].
  - unfold check_folder_exists.
    apply calls_only_bind; [apply Hlife, create_clients_calls|intros [ac tc]].
    apply calls_only_try_except.
    + apply calls_only_bind; [|intros _; auto with calls].
      apply calls_only_operation_ls. unfold share_call. simpl.
      by rewrite !String.eqb_refl.
    + intros e h. destruct (is_TransferAPIError e); intros [= <-].
      destruct (String.eqb _ _); auto with calls.
  - destruct found.
    + apply calls_only_bind;
        [apply Hlife, create_clients_calls|intros [ac tc]].
      apply calls_only_bind; [|intros user_id].
      * unfold get_user_id.
        apply calls_only_bind;
          [apply Hlife, create_clients_calls|intros [ac' tc']].
        apply calls_only_bind; [|intros [|uid ids]; auto with calls].
        apply calls_only_get_identities. unfold share_call. simpl.
        by rewrite String.eqb_refl.
      * apply calls_only_try_except.
        -- apply calls_only_bind; [|intros _].
           ++ apply calls_only_add_acl. unfold share_call, share_rule. simpl.
              by rewrite !String.eqb_refl.
           ++ apply calls_only_bind; [apply Hlog|intros _].
              apply calls_only_bind;
                [apply Hlife, create_folder_link_calls|intros url].
              apply calls_only_bind; [apply Hlog|intros _].
              auto with calls.
        -- intros e h. destruct (is_TransferAPIError e); intros [= <-];
             (apply calls_only_bind; [apply Hlog|intros _]);
             auto with calls.
    + repeat (apply calls_only_bind; [apply Hlog|intros _]).
      auto with calls.
Qed.

(** X13. [share] never grants more than it says: every access rule a
    call submits is for the given endpoint, of type "access" for an
    "identity", on ['/' + directory + '/'], with permissions "r" only,
    notifying the given email.  Its listings are of [directory] on that
    endpoint, its identity lookups are for that email, and it makes no
    mkdir and no endpoint search. *)
Theorem share_only_grants_read_access
    (E : Env) (directory email app_uuid ep_uuid : string) (w : World) :
  let '(res, w') := share E directory email app_uuid ep_uuid w in
  forall c o, Ev c o ∈ emitted w w' ->
    match c with
    | CAddAcl _ ep rule =>
        ep = ep_uuid /\
        DATA_TYPE rule = "access" /\ principal_type rule = "identity" /\
        rule_path rule = "/" +:+ directory +:+ "/" /\
        permissions rule = "r" /\ notify_email rule = email
    | CLs _ ep path => ep = ep_uuid /\ path = directory
    | CGetIdentities _ usernames => usernames = email
    | CMkdir _ _ _ | CEndpointSearch _ _ | CRefreshGrant _ _ => False
    | _ => True
    end.
Proof.
  destruct (share_calls E directory email app_uuid ep_uuid w)
    as (evs & Ht & Hok).
  destruct (share E directory email app_uuid ep_uuid w) as [res w'].
  simpl in Ht. rewrite (emitted_app _ _ _ Ht).
  intros c o Hin. rewrite Forall_forall in Hok.
  specialize (Hok _ Hin). unfold share_call, share_rule in Hok.
  simpl in Hok.
  destruct c; simpl in Hok; try done;
    repeat match goal with
           | H : _ && _ = true |- _ => apply andb_prop in H as [? ?]
           | H : String.eqb _ _ = true |- _ => apply String.eqb_eq in H
           end; by repeat split.
Qed.

(** ** Listing a directory *)

Lemma find_files_loop (directory : string) (data : list DirEntry)
    (files folders : list string) (w : World) :
  for_in data
    (fun item acc =>
       let '(files, folders) := acc in
       bind (log INFO ("directory " +:+ directory +:+ " contains "
                       +:+ item_type item +:+ ": " +:+ item_name item) [])
         (fun _ =>
            let files :=
              if String.eqb (item_type item) "file"
              then files ++ [item_name item] else files in
            let folders :=
              if String.eqb (item_type item) "dir"
              then folders ++ [item_name item] else folders in
            ret (files, folders)))
    (files, folders) w
  = (inr (files ++ names_of "file" data, folders ++ names_of "dir" data),
     {| fs := fs w; stdin := stdin w; ticks := ticks w;
        trace := trace w ++ map (entry_line directory) data |}).
Proof.
  revert files folders w.
  induction data as [|item data IH]; intros files folders w; simpl.
  - unfold ret, names_of. simpl. rewrite !app_nil_r. by destruct w.
  - unfold bind at 1. unfold bind at 1, log at 1, ret at 1. simpl.
    rewrite IH. simpl. unfold names_of. rewrite !filter_cons.
    f_equal.
    + f_equal. f_equal.
      * destruct (String.eqb_spec (item_type item) "file") as [Ht|Ht];
          destruct (decide (item_type item = "file")); try done.
        by rewrite <- app_assoc.
      * destruct (String.eqb_spec (item_type item) "dir") as [Ht|Ht];
          destruct (decide (item_type item = "dir")); try done.
        by rewrite <- app_assoc.
    + f_equal. by rewrite <- app_assoc.
Qed.

(** X14. Once the clients are there, [find_files] makes one listing of
    the directory.  If the listing raises -- a missing directory
    included -- so does the call; otherwise it logs one line per entry
    and returns the names of the entries of type "file" and of those of
    type "dir", each in the order of the listing; entries of any other
    type are logged and left out. *)
Theorem find_files_sorts_the_listing
    (E : Env)
    (ls_data : list Event -> TransferClient -> string -> string
               -> list DirEntry)
    (directory app_uuid ep_uuid : string) (w w1 : World)
    (ac : AuthClient) (tc : TransferClient) :
  create_clients E app_uuid w = (inr (ac, tc), w1) ->
  let err := ls_error E (trace w1) tc ep_uuid directory in
  let data := ls_data (trace w1) tc ep_uuid directory in
  let '(res, w') := find_files E ls_data directory app_uuid ep_uuid w in
  res = match err with
        | Some e => inl e
        | None => inr (names_of "file" data, names_of "dir" data)
        end /\
  emitted w1 w' =
    Ev (CLs tc ep_uuid directory) err
    :: match err with
       | Some _ => []
       | None => map (entry_line directory) data
       end /\
  fs w' = fs w1 /\ stdin w' = stdin w1.
Proof.
  intros Hc err data. unfold find_files, bind at 1. rewrite Hc.
  unfold bind at 1, operation_ls_data. fold err. fold data.
  destruct err as [e|]; simpl.
  - repeat split. by apply emitted_app.
  - pose proof (find_files_loop directory data [] []
                  (emit (CLs tc ep_uuid directory) None w1)) as Hloop.
    unfold bind in Hloop |- *. rewrite Hloop. simpl.
    repeat split. apply emitted_app. by trace_norm.
Qed.

Lemma find_files_sorts_the_listing_witness :
  let E := Samples.env (fun _ => 100) 500 in
  let w := Samples.world 200 [] in
  let '(res, w') := find_files E MoreSamples.ls_data "data" "app" "ep" w in
  res = inr (["scan_001.h5"; "scan_002.h5"], ["raw"; "rec"]).
Proof.
  intros E w.
  assert (create_clients E "app" w =
            (inr (Samples.auth_client_of "app" 200,
                  Samples.transfer_client_of "app" 200),
             (create_clients E "app" w).2)) as Hc
    by (vm_compute; reflexivity).
  pose proof (find_files_sorts_the_listing E MoreSamples.ls_data
                "data" "app" "ep" w _ _ _ Hc) as H.
  cbv zeta in H.
  destruct (find_files E MoreSamples.ls_data "data" "app" "ep" w)
    as [res w'].
  destruct H as (H & _). rewrite H. reflexivity.
Defined.

(** ** Endpoint discovery *)

Lemma show_loop (eps : list Endpoint) (w : World) :
  for_in eps (fun ep _ => log_endpoint ep) tt w
  = (inr tt,
     {| fs := fs w; stdin := stdin w; ticks := ticks w;
        trace := trace w ++ map endpoint_line eps |}).
Proof.
  revert w. induction eps as [|ep eps IH]; intros w; simpl.
  - unfold ret. rewrite app_nil_r. by destruct w.
  - unfold bind, log_endpoint at 1, log at 1. rewrite IH. simpl.
    by rewrite <- app_assoc.
Qed.

Lemma show_and_collect_loop (eps : list Endpoint)
    (acc : list (string * string)) (w : World) :
  for_in eps
    (fun ep endpoints =>
       bind (log_endpoint ep)
         (fun _ => ret (dict_set (ep_display_name ep) (ep_id ep) endpoints)))
    acc w
  = (inr (foldl (fun d ep => dict_set (ep_display_name ep) (ep_id ep) d)
            acc eps),
     {| fs := fs w; stdin := stdin w; ticks := ticks w;
        trace := trace w ++ map endpoint_line eps |}).
Proof.
  revert acc w. induction eps as [|ep eps IH]; intros acc w; simpl.
  - unfold ret. rewrite app_nil_r. by destruct w.
  - unfold bind at 1. unfold bind at 1, log_endpoint at 1, log at 1, ret at 1.
    simpl. rewrite IH. simpl. by rewrite <- app_assoc.
Qed.

(** X15. [show] changes what [find_endpoints] logs and asks, not what
    it returns: with [show] set, the endpoints shared with me and owned
    by me are searched and logged as well, but when the searches answer,
    the dictionary comes from the "shared-by-me" answer alone, exactly
    as without [show].  The price is that a refused "shared-with-me"
    search makes the call raise. *)
Theorem show_only_adds_searches_and_lines
    (E : Env) (app_uuid : string) (w w1 : World)
    (ac : AuthClient) (tc : TransferClient) :
  create_clients E app_uuid w = (inr (ac, tc), w1) ->
  (forall answer : string -> list Endpoint,
     (forall h scope, search E h tc scope = inr (answer scope)) ->
     (find_endpoints E app_uuid true w).1
       = inr (endpoints_of (answer "shared-by-me")) /\
     (find_endpoints E app_uuid false w).1
       = inr (endpoints_of (answer "shared-by-me")) /\
     emitted w1 (find_endpoints E app_uuid true w).2 =
       [Ev (CLog INFO
              "Show all endpoints shared and owned by my globus user credentials"
              []) None;
        Ev (CLog INFO "*** Endpoints shared with me:" []) None;
        Ev (CEndpointSearch tc "shared-with-me") None]
       ++ map endpoint_line (answer "shared-with-me")
       ++ [Ev (CLog INFO "*** Endpoints owned with me:" []) None;
           Ev (CEndpointSearch tc "my-endpoints") None]
       ++ map endpoint_line (answer "my-endpoints")
       ++ [Ev (CLog INFO "*** Endpoints shared by me:" []) None;
           Ev (CEndpointSearch tc "shared-by-me") None]
       ++ map endpoint_line (answer "shared-by-me")) /\
  (forall e,
     search E
       (trace w1 ++
        [Ev (CLog INFO
               "Show all endpoints shared and owned by my globus user credentials"
               []) None;
         Ev (CLog INFO "*** Endpoints shared with me:" []) None])
       tc "shared-with-me" = inl e ->
     (find_endpoints E app_uuid true w).1 = inl e).
Proof.
  intros Hc. split.
  - intros answer Hs.
    rewrite (find_endpoints_eq E app_uuid w w1 ac tc _ Hc (Hs _ _)).
    assert (exists w',
              find_endpoints E app_uuid true w
              = (inr (endpoints_of (answer "shared-by-me")), w') /\
              trace w' =
                trace w1 ++
                [Ev (CLog INFO
                       "Show all endpoints shared and owned by my globus user credentials"
                       []) None;
                 Ev (CLog INFO "*** Endpoints shared with me:" []) None;
                 Ev (CEndpointSearch tc "shared-with-me") None]
                ++ map endpoint_line (answer "shared-with-me")
                ++ [Ev (CLog INFO "*** Endpoints owned with me:" []) None;
                    Ev (CEndpointSearch tc "my-endpoints") None]
                ++ map endpoint_line (answer "my-endpoints")
                ++ [Ev (CLog INFO "*** Endpoints shared by me:" []) None;
                    Ev (CEndpointSearch tc "shared-by-me") None]
                ++ map endpoint_line (answer "shared-by-me"))
      as (w' & Heq & Ht).
    { eexists. split.
      - unfold find_endpoints, bind at 1. rewrite Hc.
        unfold bind at 1, log at 1. unfold bind at 1, log at 1.
        unfold bind at 1, endpoint_search at 1. rewrite Hs.
        unfold bind at 1. rewrite show_loop.
        unfold bind at 1, log at 1.
        unfold bind at 1, endpoint_search at 1. rewrite Hs.
        unfold bind at 1. rewrite show_loop.
        unfold bind at 1, log at 1.
        unfold bind at 1, endpoint_search at 1. rewrite Hs.
        pose proof (show_and_collect_loop (answer "shared-by-me") [])
          as Hloop.
        unfold bind in Hloop. rewrite Hloop. reflexivity.
      - simpl. by repeat (rewrite <- ?app_assoc; simpl). }
    rewrite Heq. simpl. repeat split. by apply emitted_app.
  - intros e He.
    unfold find_endpoints, bind at 1. rewrite Hc.
    unfold bind at 1, log at 1. unfold bind at 1, log at 1.
    unfold bind at 1, endpoint_search at 1. simpl.
    rewrite <- app_assoc. simpl. by rewrite He.
Qed.

Lemma show_only_adds_searches_and_lines_witness :
  let eps := [ {| ep_id := "id-1"; ep_display_name := "beamline" |} ] in
  let E := Samples.with_search (Samples.env (fun _ => 100) 500) eps in
  let w := Samples.world 200 [] in
  (find_endpoints E "app" true w).1 = (find_endpoints E "app" false w).1.
Proof.
  intros eps E w.
  assert (create_clients E "app" w =
            (inr (Samples.auth_client_of "app" 200,
                  Samples.transfer_client_of "app" 200),
             (create_clients E "app" w).2)) as Hc
    by (vm_compute; reflexivity).
  destruct (show_only_adds_searches_and_lines E "app" w _ _ _ Hc) as [H _].
  destruct (H (fun _ => eps)) as (H1 & H2 & _); [done|].
  by rewrite H1, H2.
Defined.

Lemma dict_set_keys (k v : string) (d : list (string * string)) :
  (dict_set k v d).*1 = if dict_mem k d then d.*1 else d.*1 ++ [k].
Proof.
  unfold dict_mem. induction d as [|[k' v'] d IH]; csimpl; [done|].
  destruct (String.eqb_spec k k') as [->|Hne]; csimpl; [done|].
  rewrite IH. by destruct (dict_get k d).
Qed.

Lemma dict_mem_keys (k : string) (d : list (string * string)) :
  dict_mem k d = true <-> k ∈ d.*1.
Proof.
  unfold dict_mem. induction d as [|[k' v'] d IH]; simpl.
  - split; [done|]. by intros ?%elem_of_nil.
  - rewrite elem_of_cons.
    destruct (String.eqb_spec k k') as [->|Hne]; [naive_solver|].
    rewrite IH. naive_solver.
Qed.

Lemma dict_get_elem_of (k v : string) (d : list (string * string)) :
  NoDup d.*1 -> (dict_get k d = Some v <-> (k, v) ∈ d).
Proof.
  induction d as [|[k' v'] d IH]; simpl; intros Hnd.
  - split; [done|]. by intros ?%elem_of_nil.
  - apply NoDup_cons in Hnd as [Hk' Hnd]. rewrite elem_of_cons.
    destruct (String.eqb_spec k k') as [->|Hne].
    + split; [intros [= ->]; by left|].
      intros [[= ->]|Hin]; [done|].
      destruct Hk'. apply list_elem_of_fmap. by exists (k', v).
    + rewrite (IH Hnd). split; [by right|].
      by intros [[= -> _]|Hin].
Qed.

Lemma endpoints_of_keys (eps : list Endpoint) (acc : list (string * string)) :
  NoDup acc.*1 ->
  let d := foldl (fun d ep => dict_set (ep_display_name ep) (ep_id ep) d)
             acc eps in
  NoDup d.*1 /\
  (forall k, k ∈ d.*1 <->
             k ∈ acc.*1 \/ exists ep, ep ∈ eps /\ ep_display_name ep = k) /\
  (length d <= length acc + length eps)%nat.
Proof.
  revert acc. induction eps as [|ep eps IH]; intros acc Hnd; simpl.
  - split; [done|]. split; [|lia].
    intros k. split; [by left|]. intros [H|(ep & Hin & _)]; [done|].
    by apply elem_of_nil in Hin.
  - assert (NoDup (dict_set (ep_display_name ep) (ep_id ep) acc).*1) as Hnd'.
    { rewrite dict_set_keys.
      destruct (dict_mem _ acc) eqn:Hm; [done|].
      apply NoDup_app. split; [done|]. split; [|apply NoDup_singleton].
      intros k Hk ->%list_elem_of_singleton.
      apply dict_mem_keys in Hk. congruence. }
    destruct (IH _ Hnd') as (H1 & H2 & H3). split; [done|]. split.
    + intros k. rewrite H2, dict_set_keys.
      setoid_rewrite elem_of_cons.
      destruct (dict_mem _ acc) eqn:Hm.
      * apply dict_mem_keys in Hm. naive_solver.
      * rewrite elem_of_app, list_elem_of_singleton. naive_solver.
    + etrans; [exact H3|].
      assert (length (dict_set (ep_display_name ep) (ep_id ep) acc)
              <= S (length acc))%nat; [|lia].
      rewrite <- !(length_fmap fst), dict_set_keys.
      destruct (dict_mem _ acc); [lia|]. rewrite length_app. simpl. lia.
Qed.

(** X16. What [find_endpoints] returns is a dictionary by display name:
    no name occurs twice, the names are exactly the display names of the
    endpoints the "shared-by-me" search answered with, every entry pairs
    a name with the id of one of those endpoints, and a pair is in the
    dictionary exactly when looking the name up gives the id. *)
Theorem find_endpoints_returns_a_dictionary
    (E : Env) (app_uuid : string) (w w1 : World)
    (ac : AuthClient) (tc : TransferClient) (eps : list Endpoint) :
  create_clients E app_uuid w = (inr (ac, tc), w1) ->
  search E (trace w1) tc "shared-by-me" = inr eps ->
  exists d,
    (find_endpoints E app_uuid false w).1 = inr d /\
    NoDup d.*1 /\
    (length d <= length eps)%nat /\
    (forall k, k ∈ d.*1 <-> exists ep, ep ∈ eps /\ ep_display_name ep = k) /\
    (forall k v, (k, v) ∈ d <-> dict_get k d = Some v) /\
    (forall k v, (k, v) ∈ d ->
       exists ep, ep ∈ eps /\ ep_display_name ep = k /\ ep_id ep = v).
Proof.
  intros Hc Hs. exists (endpoints_of eps).
  rewrite (find_endpoints_eq E app_uuid w w1 ac tc eps Hc Hs). simpl.
  destruct (endpoints_of_keys eps [] (NoDup_nil_2)) as (Hnd & Hk & Hlen).
  fold (endpoints_of eps) in Hnd, Hk, Hlen. simpl in Hlen.
  split; [done|]. split; [done|]. split; [done|]. split; [|split].
  - intros k. rewrite Hk. split; [|by right].
    intros [Hin|H]; [by apply elem_of_nil in Hin|done].
  - intros k v. by rewrite dict_get_elem_of.
  - intros k v Hin. apply dict_get_elem_of in Hin; [|done].
    rewrite dict_get_endpoints_of in Hin.
    destruct (last _) as [ep|] eqn:Hlast; [|done].
    injection Hin as <-. apply last_Some_elem_of in Hlast.
    apply list_elem_of_filter in Hlast as [Hname Hep]. by exists ep.
Qed.

Lemma find_endpoints_returns_a_dictionary_witness :
  let eps := [ {| ep_id := "id-1"; ep_display_name := "beamline" |};
               {| ep_id := "id-2"; ep_display_name := "archive" |};
               {| ep_id := "id-3"; ep_display_name := "beamline" |} ] in
  let E := Samples.with_search (Samples.env (fun _ => 100) 500) eps in
  let w := Samples.world 200 [] in
  exists d, (find_endpoints E "app" false w).1 = inr d /\ NoDup d.*1 /\
            (length d <= 3)%nat.
Proof.
  intros eps E w.
  assert (create_clients E "app" w =
            (inr (Samples.auth_client_of "app" 200,
                  Samples.transfer_client_of "app" 200),
             (create_clients E "app" w).2)) as Hc
    by (vm_compute; reflexivity).
  destruct (find_endpoints_returns_a_dictionary E "app" w _ _ _ eps Hc)
    as (d & H1 & H2 & H3 & _); [reflexivity|].
  by exists d.
Defined.

(** ** Links *)

Lemma string_length_app (a b : string) :
  String.length (a +:+ b) = (String.length a + String.length b)%nat.
Proof. induction a as [|c a IH]; simpl; [done|]. by rewrite IH. Qed.

Lemma substring_skip (p s : string) (n : nat) :
  String.substring (String.length p) n (p +:+ s) = String.substring 0 n s.
Proof. induction p as [|c p IH]; simpl; [done|]. exact IH. Qed.

Lemma substring_prefix (h q : string) :
  String.substring 0 (String.length h) (h +:+ q) = h.
Proof.
  induction h as [|c h IH]; simpl.
  - by destruct q.
  - by rewrite IH.
Qed.

Lemma slice_to_end_middle (start drop : nat) (p h q : string) :
  String.length p = start -> String.length q = drop ->
  slice_to_end start drop (p +:+ h +:+ q) = h.
Proof.
  intros <- <-. unfold slice_to_end. rewrite !string_length_app.
  replace (String.length p + (String.length h + String.length q)
           - String.length q - String.length p)%nat
    with (String.length h) by lia.
  rewrite substring_skip. apply substring_prefix.
Qed.

Lemma slice_to_end_short (start drop : nat) (s : string) :
  (String.length s <= start + drop)%nat -> slice_to_end start drop s = "".
Proof.
  intros Hlen. unfold slice_to_end.
  replace (String.length s - drop - start)%nat with 0%nat by lia.
  generalize start. clear. induction s as [|c s IH]; intros [|n]; simpl; auto.
Qed.

Lemma foldl_snoc_map {A B} (f : A -> B) (l : list A) (acc : list B) :
  foldl (fun acc x => acc ++ [f x]) acc l = acc ++ map f l.
Proof.
  revert acc. induction l as [|x l IH]; intros acc; simpl.
  - by rewrite app_nil_r.
  - by rewrite IH, <- app_assoc.
Qed.

Lemma file_links_loop
    (get_tlsftp_server : TransferClient -> string -> M string)
    (tc : TransferClient) (directory ep_uuid server : string)
    (files acc : list string) (w : World) :
  (forall w0, exists w0', get_tlsftp_server tc ep_uuid w0 = (inr server, w0')) ->
  exists w',
    for_in files
      (fun file_name file_links =>
         bind (get_tlsftp_server tc ep_uuid)
           (fun tlsftp_server =>
              ret (file_links
                   ++ ["https://" +:+ slice_to_end 9 4 tlsftp_server +:+ "/"
                       +:+ directory +:+ "/" +:+ file_name])))
      acc w
    = (inr (acc ++ map (fun file_name =>
                          "https://" +:+ slice_to_end 9 4 server +:+ "/"
                          +:+ directory +:+ "/" +:+ file_name) files),
       w').
Proof.
  intros Hsrv. revert acc w.
  induction files as [|f files IH]; intros acc w; simpl.
  - exists w. unfold ret. by rewrite app_nil_r.
  - unfold bind at 1. unfold bind at 1.
    destruct (Hsrv w) as [w0 ->]. unfold ret at 1.
    destruct (IH (acc ++ ["https://" +:+ slice_to_end 9 4 server +:+ "/"
                          +:+ directory +:+ "/" +:+ f]) w0) as [w' ->].
    exists w'. by rewrite <- app_assoc.
Qed.

(** X17. [create_links] cuts the host out of the endpoint's
    "tlsftp_server" by dropping its first nine and its last four
    characters -- the scheme "tlsftp://" and the port ":443".  With the
    clients there, the listing sorted and an endpoint document whose
    server is nine characters, a host and four characters, the result is
    one "https://host/directory/name" per file and one file-manager URL
    per folder, in the order of the listing; a server of thirteen
    characters or less leaves the host empty. *)
Theorem create_links_cuts_the_host_out
    (E : Env)
    (ls_data : list Event -> TransferClient -> string -> string
               -> list DirEntry)
    (get_tlsftp_server : TransferClient -> string -> M string)
    (directory app_uuid ep_uuid server : string) (w w1 w2 : World)
    (ac : AuthClient) (tc : TransferClient) (files folders : list string) :
  create_clients E app_uuid w = (inr (ac, tc), w1) ->
  find_files E ls_data directory app_uuid ep_uuid w1
    = (inr (files, folders), w2) ->
  (forall w0, exists w0', get_tlsftp_server tc ep_uuid w0 = (inr server, w0')) ->
  let folder_links :=
    map (fun folder =>
           "https://app.globus.org/file-manager?&origin_id=" +:+ ep_uuid
           +:+ "&origin_path=/" +:+ directory +:+ "/" +:+ folder) folders in
  let res :=
    (create_links E ls_data get_tlsftp_server directory app_uuid ep_uuid w).1 in
  (forall scheme host port,
     server = scheme +:+ host +:+ port ->
     String.length scheme = 9%nat -> String.length port = 4%nat ->
     res = inr (map (fun file_name =>
                       "https://" +:+ host +:+ "/" +:+ directory +:+ "/"
                       +:+ file_name) files,
                folder_links)) /\
  ((String.length server <= 13)%nat ->
   res = inr (map (fun file_name =>
                     "https:///" +:+ directory +:+ "/" +:+ file_name) files,
              folder_links)).
Proof.
  intros Hc Hf Hsrv folder_links res.
  assert (res = inr (map (fun file_name =>
                            "https://" +:+ slice_to_end 9 4 server +:+ "/"
                            +:+ directory +:+ "/" +:+ file_name) files,
                     folder_links)) as Hres.
  { subst res. unfold create_links, bind at 1. rewrite Hc.
    unfold bind at 1. rewrite Hf. unfold bind at 1.
    destruct (file_links_loop get_tlsftp_server tc directory ep_uuid server
                files [] w2 Hsrv) as [w3 Hloop].
    rewrite Hloop. unfold bind at 1.
    rewrite (for_in_pure folders
               (fun folder folder_links =>
                  folder_links
                  ++ ["https://app.globus.org/file-manager?&origin_id="
                      +:+ ep_uuid +:+ "&origin_path=/" +:+ directory
                      +:+ "/" +:+ folder])).
    simpl. unfold folder_links.
    by rewrite (foldl_snoc_map
                  (fun folder =>
                     "https://app.globus.org/file-manager?&origin_id="
                     +:+ ep_uuid +:+ "&origin_path=/" +:+ directory
                     +:+ "/" +:+ folder)). }
  rewrite Hres. split.
  - intros scheme host port -> Hs Hp.
    by rewrite (slice_to_end_middle 9 4 scheme host port Hs Hp).
  - intros Hshort. by rewrite (slice_to_end_short 9 4 server) by lia.
Qed.

Lemma create_links_cuts_the_host_out_witness :
  let E := Samples.env (fun _ => 100) 500 in
  let w := Samples.world 200 [] in
  (create_links E MoreSamples.ls_data MoreSamples.get_tlsftp_server
     "data" "app" "ep" w).1
  = inr (["https://g-1a2b3c.fd635.8443.data.globus.org/data/scan_001.h5";
          "https://g-1a2b3c.fd635.8443.data.globus.org/data/scan_002.h5"],
         ["https://app.globus.org/file-manager?&origin_id=ep&origin_path=/data/raw";
          "https://app.globus.org/file-manager?&origin_id=ep&origin_path=/data/rec"]).
Proof.
  intros E w.
  set (w1 := (create_clients E "app" w).2).
  set (w2 := (find_files E MoreSamples.ls_data "data" "app" "ep" w1).2).
  assert (create_clients E "app" w =
            (inr (Samples.auth_client_of "app" 200,
                  Samples.transfer_client_of "app" 200), w1)) as Hc
    by (vm_compute; reflexivity).
  assert (find_files E MoreSamples.ls_data "data" "app" "ep" w1
          = (inr (["scan_001.h5"; "scan_002.h5"], ["raw"; "rec"]), w2)) as Hf
    by (vm_compute; reflexivity).
  destruct (create_links_cuts_the_host_out E MoreSamples.ls_data
              MoreSamples.get_tlsftp_server "data" "app" "ep"
              "tlsftp://g-1a2b3c.fd635.8443.data.globus.org:443"
              w w1 w2 _ _ _ _ Hc Hf) as [H _].
  - intros w0. by exists w0.
  - by rewrite (H "tlsftp://" "g-1a2b3c.fd635.8443.data.globus.org" ":443").
Defined.

(** ** Existence check and listing together *)

(** X18. In one and the same world [check_folder_exists] and
    [find_files] ask the same question and agree: the check says [True]
    exactly when the listing comes back with its two lists; when the
    check says [False], [find_files] raises the "ClientError.NotFound"
    error the check swallowed; and whatever exception leaves the check
    leaves [find_files] too. *)
Theorem find_files_succeeds_where_the_folder_exists
    (E : Env)
    (ls_data : list Event -> TransferClient -> string -> string
               -> list DirEntry)
    (directory app_uuid ep_uuid : string) (w : World) :
  let found := (check_folder_exists E directory app_uuid ep_uuid w).1 in
  let listed := (find_files E ls_data directory app_uuid ep_uuid w).1 in
  (found = inr true <-> exists lists, listed = inr lists) /\
  (found = inr false ->
   exists m, listed = inl (TransferAPIError "ClientError.NotFound" m)) /\
  (forall e, found = inl e -> listed = inl e).
Proof.
  intros found listed.
  destruct (create_clients E app_uuid w) as [[e|[ac tc]] w1] eqn:Hc.
  { assert (found = inl e) as ->
      by (subst found; unfold check_folder_exists, bind; by rewrite Hc).
    assert (listed = inl e) as ->
      by (subst listed; unfold find_files, bind; by rewrite Hc).
    settle. }
  destruct (ls_error E (trace w1) tc ep_uuid directory) as [e|] eqn:Herr.
  - assert (listed = inl e) as ->.
    { subst listed. unfold find_files, bind at 1. rewrite Hc.
      unfold bind, operation_ls_data. by rewrite Herr. }
    assert (found = if is_TransferAPIError e
                    then if String.eqb (exn_code e) "ClientError.NotFound"
                         then inr false else inl e
                    else inl e) as ->.
    { subst found. unfold check_folder_exists, bind at 1. rewrite Hc.
      unfold try_except, bind, operation_ls. rewrite Herr. simpl.
      destruct (is_TransferAPIError e); [|done].
      by destruct (String.eqb _ _). }
    destruct e as [| | | | | | | |code m|]; simpl;
      try solve [settle].
    destruct (String.eqb_spec code "ClientError.NotFound") as [->|Hne].
    + settle.
    + settle.
  - assert (found = inr true) as ->.
    { subst found. unfold check_folder_exists, bind at 1. rewrite Hc.
      unfold try_except, bind, operation_ls. by rewrite Herr. }
    assert (exists lists, listed = inr lists) as [lists ->].
    { subst listed. unfold find_files, bind at 1. rewrite Hc.
      unfold bind at 1, operation_ls_data. rewrite Herr.
      pose proof (find_files_loop directory
                    (ls_data (trace w1) tc ep_uuid directory) [] []
                    (emit (CLs tc ep_uuid directory) None w1)) as Hloop.
      unfold bind in Hloop |- *. rewrite Hloop. by eexists. }
    settle.
Qed.

(** ** The refresh token *)


